(** * A shallow embedding of the Deno WebRTC signaling server ([main.ts])

    The server keeps one registry, [rooms], a JavaScript [Map] from room
    identifiers to [Set]s of WebSocket objects, and one [clientInfo] object per
    upgraded socket.  Both JavaScript collections iterate in insertion order,
    and that order decides the order of the [send] calls of a relay, so the
    [Map] is an association list and a [Set] a duplicate-free list, both in
    insertion order.  Keys are compared the way [Map] does it
    (SameValueZero), and the guards [clientInfo.room && ...] use JavaScript's
    truthiness.

    What the platform supplies and the repository does not define
    ([JSON.parse], [Deno.env], the decimal rendering of a number) is gathered
    in the record [Platform]; the development is parametric in it. *)

From Stdlib Require Import List String Ascii Bool Arith ZArith QArith Lia.
From Stdlib Require Import Permutation.
From Stdlib Require Import Floats.SpecFloat.
Import ListNotations.
Set Warnings "-register-all".
Local Close Scope Q_scope.
Local Open Scope string_scope.
Local Open Scope list_scope.

(** ** JavaScript values *)

(** What [JSON.parse] returns.  A JSON number is an IEEE-754 double, carried
    as the Standard Library's [spec_float]; no arithmetic is done on it. *)
Inductive JSON : Type :=
| JNull
| JBool (b : bool)
| JNumber (x : spec_float)
| JString (s : string)
| JArray (items : list JSON)
| JObject (props : list (string * JSON)).

(** A WebSocket object is identified by its allocation index: the n-th
    successful [Deno.upgradeWebSocket] returns socket [n]. *)
Definition Socket : Type := nat.

(** The values an expression such as [data.topics[0]] can have.  Arrays and
    objects are references: [addr] is the identity of the object, [shape] what
    it holds. *)
Inductive Value : Type :=
| VUndefined
| VNull
| VBool (b : bool)
| VNumber (x : spec_float)
| VString (s : string)
| VObject (addr : nat) (shape : JSON).

Definition to_value (addr : nat) (j : JSON) : Value :=
  match j with
  | JNull => VNull
  | JBool b => VBool b
  | JNumber x => VNumber x
  | JString s => VString s
  | JArray _ | JObject _ => VObject addr j
  end.

(** SameValueZero on numbers: the two zeros are one key, NaN equals itself. *)
Definition number_eqb (x y : spec_float) : bool :=
  match x, y with
  | S754_zero _, S754_zero _ => true
  | S754_infinity a, S754_infinity b => Bool.eqb a b
  | S754_nan, S754_nan => true
  | S754_finite a m e, S754_finite b n f =>
      Bool.eqb a b && Pos.eqb m n && Z.eqb e f
  | _, _ => false
  end.

(** The comparison of [Map.prototype.has/get/set/delete]. *)
Definition SameValueZero (a b : Value) : bool :=
  match a, b with
  | VUndefined, VUndefined => true
  | VNull, VNull => true
  | VBool x, VBool y => Bool.eqb x y
  | VNumber x, VNumber y => number_eqb x y
  | VString s, VString t => String.eqb s t
  | VObject p _, VObject q _ => Nat.eqb p q
  | _, _ => false
  end.

(** [ToBoolean]: what [clientInfo.room && ...] tests. *)
Definition truthy (v : Value) : bool :=
  match v with
  | VUndefined | VNull => false
  | VBool b => b
  | VNumber (S754_zero _) | VNumber S754_nan => false
  | VNumber _ => true
  | VString s => negb (String.eqb s "")
  | VObject _ _ => true
  end.

(** [Map.prototype.set] stores the key -0 as +0. *)
Definition normalize_key (k : Value) : Value :=
  match k with
  | VNumber (S754_zero _) => VNumber (S754_zero false)
  | _ => k
  end.

(** Property lookup [obj.name] on a parsed object: the last binding of a
    name is the one the object has. *)
Fixpoint get_prop (name : string) (props : list (string * JSON)) : option JSON :=
  match props with
  | [] => None
  | (n, v) :: rest =>
      match get_prop name rest with
      | Some w => Some w
      | None => if String.eqb n name then Some v else None
      end
  end.

(** ** [Set<WebSocket>] *)

Definition SocketSet : Type := list Socket.

Definition Set_has (x : Socket) (s : SocketSet) : bool :=
  existsb (Nat.eqb x) s.

Definition Set_add (x : Socket) (s : SocketSet) : SocketSet :=
  if Set_has x s then s else s ++ [x].

Definition Set_delete (x : Socket) (s : SocketSet) : SocketSet :=
  filter (fun y => negb (Nat.eqb y x)) s.

Definition Set_size (s : SocketSet) : nat := List.length s.

(** ** [Map<string, Set<WebSocket>>]

    The type annotation promises string keys, but the key stored is whatever
    [data.topics[0]] evaluates to, so keys are [Value]s. *)

Definition RoomMap : Type := list (Value * SocketSet).

Fixpoint Map_get (k : Value) (m : RoomMap) : option SocketSet :=
  match m with
  | [] => None
  | (k', s) :: rest => if SameValueZero k' k then Some s else Map_get k rest
  end.

Definition Map_has (k : Value) (m : RoomMap) : bool :=
  match Map_get k m with Some _ => true | None => false end.

Fixpoint Map_set (k : Value) (s : SocketSet) (m : RoomMap) : RoomMap :=
  match m with
  | [] => [(normalize_key k, s)]
  | (k', s') :: rest =>
      if SameValueZero k' k then (k', s) :: rest
      else (k', s') :: Map_set k s rest
  end.

Fixpoint Map_delete (k : Value) (m : RoomMap) : RoomMap :=
  match m with
  | [] => []
  | (k', s') :: rest =>
      if SameValueZero k' k then rest else (k', s') :: Map_delete k rest
  end.

(** [rooms.get(k)!.add(x)] and [rooms.get(k)!.delete(x)] mutate the set the
    map holds; the entry keeps its key and its place.  Every use in the source
    is guarded by [rooms.has(k)]. *)
Fixpoint Map_mutate (k : Value) (f : SocketSet -> SocketSet) (m : RoomMap)
  : RoomMap :=
  match m with
  | [] => []
  | (k', s) :: rest =>
      if SameValueZero k' k then (k', f s) :: rest
      else (k', s) :: Map_mutate k f rest
  end.

Definition Map_size (m : RoomMap) : nat := List.length m.

(** The member set of a room, empty when the registry has no such entry. *)
Definition members (k : Value) (m : RoomMap) : SocketSet :=
  match Map_get k m with Some s => s | None => [] end.

(** ** Server state *)

Inductive ReadyState : Type := CONNECTING | OPEN | CLOSING | CLOSED.

Definition ReadyState_eqb (a b : ReadyState) : bool :=
  match a, b with
  | CONNECTING, CONNECTING | OPEN, OPEN | CLOSING, CLOSING | CLOSED, CLOSED =>
      true
  | _, _ => false
  end.

Record ClientInfo : Type := mkClientInfo {
  room : Value;            (* string | null by annotation *)
  socket : Socket;
  connectedAt : Z
}.

(** One upgraded socket: its [readyState] and the [clientInfo] object its
    listeners close over. *)
Record Connection : Type := mkConnection {
  clientInfo : ClientInfo;
  readyState : ReadyState
}.

Record Server : Type := mkServer {
  rooms : RoomMap;
  clients : list Socket;        (* keys of the WeakMap; the value of key [s]
                                   is the [clientInfo] object of socket [s] *)
  conns : list Connection;      (* socket [s] is entry [s] *)
  next_ref : nat                (* objects handed out as room keys so far *)
}.

Definition initial : Server :=
  {| rooms := []; clients := []; conns := []; next_ref := 0 |}.

Definition room_of (st : Server) (sock : Socket) : Value :=
  match nth_error (conns st) sock with
  | Some c => room (clientInfo c)
  | None => VNull
  end.

Definition readyState_of (st : Server) (sock : Socket) : ReadyState :=
  match nth_error (conns st) sock with
  | Some c => readyState c
  | None => CLOSED
  end.

Definition is_open (st : Server) (sock : Socket) : bool :=
  ReadyState_eqb (readyState_of st sock) OPEN.

Fixpoint update_nth {A : Type} (n : nat) (f : A -> A) (l : list A) : list A :=
  match l, n with
  | [], _ => []
  | x :: rest, O => f x :: rest
  | x :: rest, S n' => x :: update_nth n' f rest
  end.

Definition set_room (r : Value) (c : Connection) : Connection :=
  {| clientInfo := {| room := r;
                      socket := socket (clientInfo c);
                      connectedAt := connectedAt (clientInfo c) |};
     readyState := readyState c |}.

Definition set_readyState (rs : ReadyState) (c : Connection) : Connection :=
  {| clientInfo := clientInfo c; readyState := rs |}.

Definition WeakMap_set (s : Socket) (keys : list Socket) : list Socket :=
  if existsb (Nat.eqb s) keys then keys else keys ++ [s].

Definition WeakMap_delete (s : Socket) (keys : list Socket) : list Socket :=
  filter (fun y => negb (Nat.eqb y s)) keys.

(** ** Statistics *)

(** [getTotalClients]: the sum of the sizes of all member sets. *)
Definition getTotalClients (m : RoomMap) : nat :=
  fold_left (fun total e => total + Set_size (snd e)) m 0.

(** A [Record<string, number>]: assignment [stats[name] = n] overwrites an
    existing property and otherwise adds one. *)
Fixpoint Record_set (name : string) (n : nat) (o : list (string * nat))
  : list (string * nat) :=
  match o with
  | [] => [(name, n)]
  | (name', n') :: rest =>
      if String.eqb name' name then (name', n) :: rest
      else (name', n') :: Record_set name n rest
  end.

Fixpoint Record_get (name : string) (o : list (string * nat)) : option nat :=
  match o with
  | [] => None
  | (name', n') :: rest =>
      if String.eqb name' name then Some n' else Record_get name rest
  end.

(** [ToString] of a key, which is what [stats[room] = ...] uses as property
    name.  [render] is the platform's decimal rendering of a finite non-zero
    double. *)
Definition number_name (render : bool -> positive -> Z -> string)
  (x : spec_float) : string :=
  match x with
  | S754_zero _ => "0"
  | S754_nan => "NaN"
  | S754_infinity false => "Infinity"
  | S754_infinity true => "-Infinity"
  | S754_finite s m e => render s m e
  end.

Fixpoint json_toString (render : bool -> positive -> Z -> string) (j : JSON)
  : string :=
  match j with
  | JNull => "null"
  | JBool true => "true"
  | JBool false => "false"
  | JNumber x => number_name render x
  | JString s => s
  | JObject _ => "[object Object]"
  | JArray items =>
      (fix join (l : list JSON) : string :=
         match l with
         | [] => ""
         | x :: rest =>
             let first :=
               match x with JNull => "" | _ => json_toString render x end in
             match rest with
             | [] => first
             | _ :: _ => (first ++ "," ++ join rest)%string
             end
         end) items
  end.

Definition property_name (render : bool -> positive -> Z -> string)
  (v : Value) : string :=
  match v with
  | VUndefined => "undefined"
  | VNull => "null"
  | VBool true => "true"
  | VBool false => "false"
  | VNumber x => number_name render x
  | VString s => s
  | VObject _ shape => json_toString render shape
  end.

(** ** The platform *)

Record Platform : Type := mkPlatform {
  env_SIGNALING_PASSWORD : option string;    (* Deno.env.get(...) *)
  JSON_parse : string -> option JSON;        (* None: it throws *)
  Number_toString : bool -> positive -> Z -> string
}.

(** ** Requests and responses *)

Record Request : Type := mkRequest {
  pathname : string;                              (* new URL(req.url).pathname *)
  header_upgrade : option string;                 (* req.headers.get(...) *)
  header_sec_websocket_protocol : option string
}.

(** The body of the health response.  The JSON property [rooms] is the field
    [roomCounts] here, [rooms] being the registry. *)
Record HealthStats : Type := mkHealthStats {
  status : string;
  totalRooms : nat;
  totalClients : nat;
  roomCounts : list (string * nat);
  uptime : Q
}.

Inductive Response : Type :=
| Health (stats : HealthStats)                        (* 200, JSON body *)
| UpgradeRequired                                     (* 426 *)
| Unauthorized                                        (* 401 *)
| SwitchingProtocols (protocol : string) (sock : Socket).  (* 101 *)

Definition status_code (r : Response) : nat :=
  match r with
  | Health _ => 200
  | UpgradeRequired => 426
  | Unauthorized => 401
  | SwitchingProtocols _ _ => 101
  end.

Definition header_is (h : option string) (expected : string) : bool :=
  match h with
  | Some v => String.eqb v expected
  | None => false
  end.

Section Relay.

Variable deno : Platform.

(** [Deno.env.get("SIGNALING_PASSWORD") || "change-me-in-production"] *)
Definition SIGNALING_PASSWORD : string :=
  match env_SIGNALING_PASSWORD deno with
  | Some s => if String.eqb s "" then "change-me-in-production" else s
  | None => "change-me-in-production"
  end.

Definition getRoomStats (m : RoomMap) : list (string * nat) :=
  fold_left
    (fun stats e =>
       Record_set (property_name (Number_toString deno) (fst e))
                  (Set_size (snd e)) stats)
    m [].

Definition health (st : Server) (performance_now : Q) : HealthStats :=
  {| status := "ok";
     totalRooms := Map_size (rooms st);
     totalClients := getTotalClients (rooms st);
     roomCounts := getRoomStats (rooms st);
     uptime := Qdiv performance_now (Qmake 1000 1) |}.

(** The handler given to [Deno.serve].  [performance_now] and [date] are the
    clock readings the handler takes; the uptime is their quotient by 1000 as
    a rational, the rounding of the double division left out.
    [Deno.upgradeWebSocket] is taken to succeed on a request that carries
    [upgrade: websocket].  Logging has no effect on the state and is left
    out throughout. *)
Definition serve (st : Server) (req : Request) (performance_now : Q) (date : Z)
  : Server * Response :=
  if String.eqb (pathname req) "/health" || String.eqb (pathname req) "/" then
    (st, Health (health st performance_now))
  else if negb (header_is (header_upgrade req) "websocket") then
    (st, UpgradeRequired)
  else if negb (header_is (header_sec_websocket_protocol req)
                          SIGNALING_PASSWORD) then
    (st, Unauthorized)
  else
    let sock := List.length (conns st) in
    let info := {| room := VNull; socket := sock; connectedAt := date |} in
    ({| rooms := rooms st;
        clients := WeakMap_set sock (clients st);
        conns := conns st ++ [{| clientInfo := info; readyState := CONNECTING |}];
        next_ref := next_ref st |},
     SwitchingProtocols SIGNALING_PASSWORD sock).

(** ** The message listener *)

(** The test of the subscribe branch:
    [data.type === "subscribe" && data.topics && Array.isArray(data.topics)].
    Only an object can have the two properties; an array is always truthy. *)
Definition subscribe_topics (data : JSON) : option (list JSON) :=
  match data with
  | JObject props =>
      match get_prop "type" props, get_prop "topics" props with
      | Some (JString t), Some (JArray items) =>
          if String.eqb t "subscribe" then Some items else None
      | _, _ => None
      end
  | _ => None
  end.

(** [data.topics[0]]: [undefined] on an empty array. *)
Definition first_topic (addr : nat) (items : list JSON) : Value :=
  match items with
  | [] => VUndefined
  | j :: _ => to_value addr j
  end.

(** The block the subscribe branch and the close listener share:
    [if (clientInfo.room && rooms.has(clientInfo.room)) {
       rooms.get(clientInfo.room)!.delete(socket);
       if (rooms.get(clientInfo.room)!.size === 0) rooms.delete(clientInfo.room);
     }] *)
Definition leave (sock : Socket) (r : Value) (m : RoomMap) : RoomMap :=
  if truthy r && Map_has r m then
    let m1 := Map_mutate r (Set_delete sock) m in
    if Nat.eqb (Set_size (members r m1)) 0 then Map_delete r m1 else m1
  else m.

(** The second half of the subscribe branch:
    [if (!rooms.has(room)) rooms.set(room, new Set());
     rooms.get(room)!.add(socket);] *)
Definition enter (sock : Socket) (r : Value) (m : RoomMap) : RoomMap :=
  Map_mutate r (Set_add sock) (if Map_has r m then m else Map_set r [] m).

(** The subscribe branch, for [room = data.topics[0]]: leave the old room,
    [clientInfo.room = room], enter the new one. *)
Definition join (st : Server) (sock : Socket) (items : list JSON) : Server :=
  let r := first_topic (next_ref st) items in
  {| rooms := enter sock r (leave sock (room_of st sock) (rooms st));
     clients := clients st;
     conns := update_nth sock (set_room r) (conns st);
     next_ref := S (next_ref st) |}.

(** The relay loop; the [try] body and the [catch] fallback run the same
    loop.  The result lists the [client.send(event.data)] calls in order. *)
Definition fan_out (st : Server) (sock : Socket) (data : string)
  : list (Socket * string) :=
  let r := room_of st sock in
  if truthy r && Map_has r (rooms st) then
    map (fun client => (client, data))
        (filter (fun client => negb (Nat.eqb client sock) && is_open st client)
                (members r (rooms st)))
  else [].

(** The message listener of socket [sock].  [JSON.parse] may throw (it does
    on a binary frame as on any text that is not JSON), and so does
    [data.type] when the payload is the literal [null]; both land in the
    [catch] block before anything was changed. *)
Definition on_message (st : Server) (sock : Socket) (data : string)
  : Server * list (Socket * string) :=
  match JSON_parse deno data with
  | None => (st, fan_out st sock data)
  | Some JNull => (st, fan_out st sock data)
  | Some d =>
      let st1 :=
        match subscribe_topics d with
        | Some items => join st sock items
        | None => st
        end in
      (st1, fan_out st1 sock data)
  end.

(** Whether the listener takes the subscribe branch on [data]. *)
Definition is_subscribe (data : string) : bool :=
  match JSON_parse deno data with
  | Some d =>
      match subscribe_topics d with Some _ => true | None => false end
  | None => false
  end.

(** The close listener. *)
Definition on_close (st : Server) (sock : Socket) : Server :=
  {| rooms := leave sock (room_of st sock) (rooms st);
     clients := WeakMap_delete sock (clients st);
     conns := conns st;
     next_ref := next_ref st |}.

(** ** Events

    The runtime decides when a listener runs.  Following the WebSocket API: a
    message event is dispatched only while the socket is OPEN, the close event
    once, and a socket the server never upgraded has no listeners. *)

Inductive Event : Type :=
| Fetch (req : Request) (performance_now : Q) (date : Z)
| SocketOpen (s : Socket)
| SocketMessage (s : Socket) (data : string)
| SocketClosing (s : Socket)
| SocketClose (s : Socket)
| SocketError (s : Socket).

Inductive Output : Type :=
| Responded (r : Response)
| Sent (to : Socket) (data : string).

Definition set_ready (s : Socket) (rs : ReadyState) (st : Server) : Server :=
  {| rooms := rooms st;
     clients := clients st;
     conns := update_nth s (set_readyState rs) (conns st);
     next_ref := next_ref st |}.

Definition step (st : Server) (ev : Event) : Server * list Output :=
  match ev with
  | Fetch req performance_now date =>
      let (st', resp) := serve st req performance_now date in
      (st', [Responded resp])
  | SocketOpen s =>
      if ReadyState_eqb (readyState_of st s) CONNECTING
      then (set_ready s OPEN st, [])
      else (st, [])
  | SocketMessage s data =>
      if is_open st s then
        let (st', out) := on_message st s data in
        (st', map (fun o => Sent (fst o) (snd o)) out)
      else (st, [])
  | SocketClosing s =>
      match readyState_of st s with
      | CONNECTING | OPEN => (set_ready s CLOSING st, [])
      | _ => (st, [])
      end
  | SocketClose s =>
      match readyState_of st s with
      | CLOSED => (st, [])
      | _ => (on_close (set_ready s CLOSED st) s, [])
      end
  | SocketError s => (st, [])
  end.

Fixpoint run (st : Server) (evs : list Event) : Server * list Output :=
  match evs with
  | [] => (st, [])
  | ev :: rest =>
      let (st1, out1) := step st ev in
      let (st2, out2) := run st1 rest in
      (st2, out1 ++ out2)
  end.

Definition state_after (evs : list Event) : Server := fst (run initial evs).

End Relay.

(** ** What the handshake branch logs

    A call [log(level, message, data)] is kept as its three arguments; the
    timestamp and the JSON rendering of [data] are the platform's.  Modelled
    are the calls of the [Deno.serve] handler, which are the ones that handle
    the secret.  A string is its sequence of code units, so [substring]
    counts the way JavaScript does. *)

Inductive LogValue : Type :=
| LUndefined
| LNull
| LBool (b : bool)
| LNumber (n : nat)
| LString (s : string).

Record LogCall : Type := mkLogCall {
  log_level : string;
  log_message : string;
  log_data : list (string * LogValue)
}.

(** The headers only the log calls read. *)
Record LoggedHeaders : Type := mkLoggedHeaders {
  url : string;                               (* req.url *)
  header_connection : option string;
  header_origin : option string;
  header_user_agent : option string;
  header_x_forwarded_for : option string
}.

(** [h || fallback] on a header value: [null] and the empty string are
    falsy. *)
Definition or_else (h : option string) (fallback : string) : string :=
  match h with
  | Some v => if String.eqb v "" then fallback else v
  | None => fallback
  end.

(** [req.headers.get(...)] as a logged value. *)
Definition header_value (h : option string) : LogValue :=
  match h with
  | Some v => LString v
  | None => LNull
  end.

(** [s.substring(k)].  At its one call site [k] is [s.length - 3], which
    JavaScript takes for 0 when negative: the truncated subtraction of [nat]. *)
Definition substring_from (k : nat) (s : string) : string :=
  substring k (String.length s - k) s.

(** [pw.substring(0, 3) + "***" + pw.substring(pw.length - 3)] *)
Definition mask_ends (pw : string) : string :=
  (substring 0 3 pw ++ "***" ++ substring_from (String.length pw - 3) pw)%string.

Section Logging.

Variable deno : Platform.

Definition log_upgrade_request (req : Request) (h : LoggedHeaders) : LogCall :=
  {| log_level := "DEBUG";
     log_message := "WebSocket upgrade request received";
     log_data :=
       [("url", LString (url h));
        ("upgrade", header_value (header_upgrade req));
        ("connection", header_value (header_connection h));
        ("origin", header_value (header_origin h));
        ("userAgent",
         match header_user_agent h with
         | Some v => LString (substring 0 50 v)
         | None => LUndefined
         end)] |}.

Definition log_authentication_check (req : Request) : LogCall :=
  {| log_level := "DEBUG";
     log_message := "Authentication check";
     log_data :=
       [("providedProtocol",
         LString (or_else (header_sec_websocket_protocol req) "NONE"));
        ("expectedPassword", LString (mask_ends (SIGNALING_PASSWORD deno)));
        ("passwordLength", LNumber (String.length (SIGNALING_PASSWORD deno)));
        ("match",
         LBool (header_is (header_sec_websocket_protocol req)
                          (SIGNALING_PASSWORD deno)))] |}.

Definition log_authentication_failed (req : Request) (h : LoggedHeaders)
  : LogCall :=
  {| log_level := "WARN";
     log_message := "Authentication FAILED";
     log_data :=
       [("providedProtocol",
         LString (or_else (header_sec_websocket_protocol req) "NONE"));
        ("providedLength",
         LNumber match header_sec_websocket_protocol req with
                 | Some v => String.length v
                 | None => 0
                 end);
        ("expectedPrefix",
         LString (substring 0 5 (SIGNALING_PASSWORD deno) ++ "***")%string);
        ("expectedLength", LNumber (String.length (SIGNALING_PASSWORD deno)));
        ("ip", LString (or_else (header_x_forwarded_for h) "unknown"));
        ("origin", header_value (header_origin h))] |}.

Definition log_authentication_success (protocol : string) : LogCall :=
  {| log_level := "INFO";
     log_message := "Authentication SUCCESS - Upgrading to WebSocket";
     log_data := [("protocol", LString (substring 0 3 protocol ++ "***")%string)] |}.

(** The log calls of one run of the handler, in order: none on the health
    and the 426 branches, three on a handshake. *)
Definition serve_log (req : Request) (h : LoggedHeaders) : list LogCall :=
  if String.eqb (pathname req) "/health" || String.eqb (pathname req) "/" then
    []
  else if negb (header_is (header_upgrade req) "websocket") then
    []
  else
    log_upgrade_request req h ::
    log_authentication_check req ::
    match header_sec_websocket_protocol req with
    | Some protocol =>
        if String.eqb protocol (SIGNALING_PASSWORD deno)
        then [log_authentication_success protocol]
        else [log_authentication_failed req h]
    | None => [log_authentication_failed req h]
    end.

End Logging.

(** ** A concrete platform and concrete payloads, for the examples *)

Module Examples.

(** The double-quote character. *)
Definition dq : string := String (ascii_of_nat 34) EmptyString.

(** The JSON text of a value built from strings, arrays and objects (no
    escapes, no numbers): the payloads of the examples are written with it, so
    that text and parsed value agree. *)
Fixpoint text_of (j : JSON) : string :=
  match j with
  | JNull => "null"
  | JBool true => "true"
  | JBool false => "false"
  | JNumber _ => "0"
  | JString s => dq ++ s ++ dq
  | JArray items =>
      "[" ++
      (fix go (l : list JSON) : string :=
         match l with
         | [] => ""
         | x :: rest =>
             match rest with
             | [] => text_of x
             | _ :: _ => text_of x ++ "," ++ go rest
             end
         end) items ++ "]"
  | JObject props =>
      "{" ++
      (fix go (l : list (string * JSON)) : string :=
         match l with
         | [] => ""
         | (n, x) :: rest =>
             match rest with
             | [] => dq ++ n ++ dq ++ ":" ++ text_of x
             | _ :: _ => dq ++ n ++ dq ++ ":" ++ text_of x ++ "," ++ go rest
             end
         end) props ++ "}"
  end%string.

Definition subscribe_to (topics : list string) : JSON :=
  JObject [("type", JString "subscribe"); ("topics", JArray (map JString topics))].

Definition action_subscribe_to (topics : list string) : JSON :=
  JObject [("action", JString "subscribe");
           ("topics", JArray (map JString topics))].

Definition ping : JSON := JObject [("type", JString "ping")].

(** The structured payloads the examples send. *)
Definition known_payloads : list JSON :=
  [ subscribe_to [""]; subscribe_to ["A"]; subscribe_to ["B"];
    subscribe_to ["room-1"]; subscribe_to []; subscribe_to ["A"; "B"];
    action_subscribe_to ["r"]; ping ].

(** [JSON.parse] restricted to the payloads of the examples; every other text
    the examples send ("hello") is not JSON. *)
Definition parse (text : string) : option JSON :=
  find (fun j => String.eqb (text_of j) text) known_payloads.

(** No example has a number as room key, so the rendering of numbers is
    immaterial here. *)
Definition deno : Platform :=
  {| env_SIGNALING_PASSWORD := None;
     JSON_parse := parse;
     Number_toString := fun _ _ _ => "" |}.

Definition password : string := "change-me-in-production".

(** A WebSocket handshake on [path] presenting [credential]. *)
Definition handshake (path credential : string) : Event :=
  Fetch {| pathname := path;
           header_upgrade := Some "websocket";
           header_sec_websocket_protocol := Some credential |}
        (Qmake 0 1) 0%Z.

(** A plain GET of [path], without credential. *)
Definition get (path : string) : Request :=
  {| pathname := path;
     header_upgrade := None;
     header_sec_websocket_protocol := None |}.

(** Socket [n] connects on [/ws] with the right credential and opens. *)
Definition connect (n : Socket) : list Event :=
  [handshake "/ws" password; SocketOpen n].

Definition says (n : Socket) (j : JSON) : Event := SocketMessage n (text_of j).

(** One client subscribes to the room [""] and then to the room ["A"]. *)
Definition empty_then_A : list Event :=
  connect 0 ++ [says 0 (subscribe_to [""]); says 0 (subscribe_to ["A"])].

(** Two clients in room ["A"]. *)
Definition two_in_A : list Event :=
  connect 0 ++ connect 1 ++
  [says 0 (subscribe_to ["A"]); says 1 (subscribe_to ["A"])].

(** One client, connected and open, that never subscribed. *)
Definition one_idle : list Event := connect 0.

(** Client 0 in the room [""], client 1 connected. *)
Definition one_in_empty : list Event :=
  connect 0 ++ connect 1 ++ [says 0 (subscribe_to [""])].

(** Two clients in the room [""]. *)
Definition two_in_empty : list Event :=
  one_in_empty ++ [says 1 (subscribe_to [""])].

(** Client 0 in room ["A"]. *)
Definition A_then_no_topic : list Event :=
  connect 0 ++ [says 0 (subscribe_to ["A"])].

(** One client subscribes to the room [""] and disconnects. *)
Definition empty_then_close : list Event :=
  connect 0 ++ [says 0 (subscribe_to [""]); SocketClose 0].

End Examples.

(** * Vocabulary of the statements *)

(** SameValueZero is equality of key classes: the sign of a zero and what an
    object holds play no part. *)
Definition key_class (v : Value) : Value :=
  match v with
  | VNumber (S754_zero _) => VNumber (S754_zero false)
  | VObject p _ => VObject p JNull
  | _ => v
  end.

(** No two entries of the registry have keys of one class. *)
Fixpoint keys_unique (m : RoomMap) : Prop :=
  match m with
  | [] => True
  | (k, _) :: rest => Map_get k rest = None /\ keys_unique rest
  end.

(** No entry of the registry holds an empty member set. *)
Definition all_nonempty (m : RoomMap) : Prop :=
  Forall (fun e => snd e <> []) m.

(** The two structural invariants of the registry. *)
Definition registry_ok (st : Server) : Prop :=
  keys_unique (rooms st) /\ all_nonempty (rooms st).

(** The count [getRoomStats] reports under [name]: that of the last entry of
    the registry whose key has this property name. *)
Fixpoint reported (deno : Platform) (name : string) (m : RoomMap)
  : option nat :=
  match m with
  | [] => None
  | (k, s) :: rest =>
      match reported deno name rest with
      | Some n => Some n
      | None =>
          if String.eqb (property_name (Number_toString deno) k) name
          then Some (Set_size s) else None
      end
  end.

(** The number of upgraded sockets that are currently open. *)
Definition open_connections (st : Server) : nat :=
  List.length (filter (fun c => ReadyState_eqb (readyState c) OPEN) (conns st)).

(** For rooms whose identifier is truthy: whoever is in the member set is a
    connection that is not closed and whose pointer names the room, and a
    connection that is not closed and whose pointer is truthy is in the member
    set of the room it names. *)
Definition consistent_truthy (st : Server) : Prop :=
  (forall r s, truthy r = true -> In s (members r (rooms st)) ->
     SameValueZero (room_of st s) r = true /\ readyState_of st s <> CLOSED) /\
  (forall s, readyState_of st s <> CLOSED -> truthy (room_of st s) = true ->
     In s (members (room_of st s) (rooms st))).

(** No member set lists a socket twice. *)
Definition sets_nodup (m : RoomMap) : Prop :=
  Forall (fun e => NoDup (snd e)) m.

(** Every member of every room is a socket the server upgraded. *)
Definition members_upgraded (st : Server) : Prop :=
  forall k s x, In (k, s) (rooms st) -> In x s -> x < List.length (conns st).

(** The requests the handler upgrades: off the health paths, with the
    upgrade header and the configured secret as protocol. *)
Definition authenticated (deno : Platform) (req : Request) : bool :=
  negb (String.eqb (pathname req) "/health" || String.eqb (pathname req) "/")
  && header_is (header_upgrade req) "websocket"
  && header_is (header_sec_websocket_protocol req) (SIGNALING_PASSWORD deno).


(** The events that can change membership: a subscribe and a close. *)
Definition membership_event (deno : Platform) (ev : Event) : bool :=
  match ev with
  | SocketMessage _ data => is_subscribe deno data
  | SocketClose _ => true
  | _ => false
  end.

(** The sockets that are not closed and whose room pointer is truthy. *)
Definition subscribed_sockets (st : Server) : list Socket :=
  filter (fun s => negb (ReadyState_eqb (readyState_of st s) CLOSED)
                   && truthy (room_of st s))
         (seq 0 (List.length (conns st))).

(** The shape of the member sets: no socket twice, upgraded sockets only. *)
Definition sets_ok (st : Server) : Prop :=
  sets_nodup (rooms st) /\
  Forall (fun e => Forall (fun x => x < List.length (conns st)) (snd e))
         (rooms st).

(** The session table holds each socket that is not closed, once. *)
Definition table_ok (st : Server) : Prop :=
  NoDup (clients st) /\
  forall s, In s (clients st) <-> readyState_of st s <> CLOSED.

(** * Facts about the collections *)

Section KeyFacts.

Ltac eqb_to_eq :=
  repeat match goal with
  | H : (_ && _)%bool = true |- _ => apply andb_true_iff in H; destruct H
  | H : Bool.eqb _ _ = true |- _ => apply Bool.eqb_prop in H
  | H : Pos.eqb _ _ = true |- _ => apply Pos.eqb_eq in H
  | H : Z.eqb _ _ = true |- _ => apply Z.eqb_eq in H
  | H : String.eqb _ _ = true |- _ => apply String.eqb_eq in H
  | H : Nat.eqb _ _ = true |- _ => apply Nat.eqb_eq in H
  end.

Lemma SameValueZero_spec (a b : Value) :
  SameValueZero a b = true <-> key_class a = key_class b.
Proof.
  destruct a as [| |b1|[s1|s1| |s1 m1 e1]|t1|p1 j1],
           b as [| |b2|[s2|s2| |s2 m2 e2]|t2|p2 j2]; simpl;
    split; intro H; try discriminate H; try reflexivity;
    try (eqb_to_eq; subst; reflexivity);
    try (inversion H; subst;
         rewrite ?Bool.eqb_reflx, ?Pos.eqb_refl, ?Z.eqb_refl,
           ?String.eqb_refl, ?Nat.eqb_refl; reflexivity).
Qed.

Lemma SameValueZero_refl (a : Value) : SameValueZero a a = true.
Proof. now apply SameValueZero_spec. Qed.

Lemma SameValueZero_sym (a b : Value) :
  SameValueZero a b = SameValueZero b a.
Proof.
  destruct (SameValueZero a b) eqn:E, (SameValueZero b a) eqn:F; trivial.
  - apply SameValueZero_spec in E. symmetry in E.
    apply SameValueZero_spec in E. congruence.
  - apply SameValueZero_spec in F. symmetry in F.
    apply SameValueZero_spec in F. congruence.
Qed.

(** Two keys of one class compare alike with every third key. *)
Lemma SameValueZero_congr (a b c : Value) :
  SameValueZero a b = true -> SameValueZero a c = SameValueZero b c.
Proof.
  intro H. apply SameValueZero_spec in H.
  destruct (SameValueZero a c) eqn:E, (SameValueZero b c) eqn:F; trivial.
  - apply SameValueZero_spec in E.
    assert (G : key_class b = key_class c) by congruence.
    apply SameValueZero_spec in G. congruence.
  - apply SameValueZero_spec in F.
    assert (G : key_class a = key_class c) by congruence.
    apply SameValueZero_spec in G. congruence.
Qed.

Lemma SameValueZero_normalize (k : Value) :
  SameValueZero (normalize_key k) k = true.
Proof.
  apply SameValueZero_spec.
  destruct k as [| |b|x|s|p j]; try reflexivity. now destruct x.
Qed.

(** Truthiness is a property of the key class. *)
Lemma truthy_congr (a b : Value) :
  SameValueZero a b = true -> truthy a = truthy b.
Proof.
  intro H. apply SameValueZero_spec in H.
  destruct a as [| |b1|[s1|s1| |s1 m1 e1]|t1|p1 j1],
           b as [| |b2|[s2|s2| |s2 m2 e2]|t2|p2 j2]; simpl in *;
    try discriminate H; try reflexivity; inversion H; subst; reflexivity.
Qed.

Lemma SameValueZero_false (a b : Value) :
  SameValueZero a b = false <-> key_class a <> key_class b.
Proof.
  split.
  - intros H E. apply SameValueZero_spec in E. congruence.
  - intro H. destruct (SameValueZero a b) eqn:E; trivial.
    apply SameValueZero_spec in E. contradiction.
Qed.

End KeyFacts.

(** Turns every comparison in sight into a fact about key classes. *)
Ltac svz_hyps :=
  repeat match goal with
  | H : SameValueZero _ _ = true |- _ => apply SameValueZero_spec in H
  | H : SameValueZero _ _ = false |- _ => apply SameValueZero_false in H
  end.

Ltac svz :=
  repeat match goal with
  | |- context [SameValueZero ?a ?b] =>
      let E := fresh "E" in destruct (SameValueZero a b) eqn:E
  end;
  simpl; svz_hyps; try reflexivity; try congruence.

Section MapFacts.

Implicit Types (k r : Value) (m : RoomMap) (s : SocketSet).

Lemma Map_get_congr k k' m :
  SameValueZero k k' = true -> Map_get k m = Map_get k' m.
Proof.
  intro H. induction m as [|[a s] rest IH]; simpl; trivial.
  rewrite IH. svz.
Qed.

Lemma Map_get_app k m m' :
  Map_get k (m ++ m') =
  match Map_get k m with Some s => Some s | None => Map_get k m' end.
Proof.
  induction m as [|[a s] rest IH]; simpl; trivial.
  destruct (SameValueZero a k); trivial.
Qed.

Lemma Map_get_mutate r k f m :
  Map_get k (Map_mutate r f m) =
  if SameValueZero r k then option_map f (Map_get k m) else Map_get k m.
Proof.
  induction m as [|[a s] rest IH]; simpl.
  - now destruct (SameValueZero r k).
  - destruct (SameValueZero a r) eqn:Ear; simpl; rewrite ?IH; svz.
Qed.

Lemma Map_get_delete_other r k m :
  SameValueZero r k = false -> Map_get k (Map_delete r m) = Map_get k m.
Proof.
  intro H. induction m as [|[a s] rest IH]; simpl; trivial.
  destruct (SameValueZero a r) eqn:Ear; simpl; rewrite ?IH; svz.
Qed.

Lemma Map_get_delete_None r k m :
  Map_get k m = None -> Map_get k (Map_delete r m) = None.
Proof.
  induction m as [|[a s] rest IH]; simpl; trivial.
  destruct (SameValueZero a k) eqn:Eak; [discriminate|].
  intro H. destruct (SameValueZero a r); simpl; trivial.
  rewrite Eak. auto.
Qed.

Lemma Map_set_absent k s m :
  Map_get k m = None -> Map_set k s m = m ++ [(normalize_key k, s)].
Proof.
  induction m as [|[a t] rest IH]; simpl; trivial.
  destruct (SameValueZero a k); [discriminate|].
  intro H. now rewrite IH.
Qed.

Lemma Map_mutate_app_absent k k0 f s m :
  Map_get k m = None -> SameValueZero k0 k = true ->
  Map_mutate k f (m ++ [(k0, s)]) = m ++ [(k0, f s)].
Proof.
  intros H H0. induction m as [|[a t] rest IH]; simpl in *.
  - now rewrite H0.
  - destruct (SameValueZero a k); [discriminate|]. now rewrite IH.
Qed.

Lemma Map_mutate_absent k f m :
  Map_get k m = None -> Map_mutate k f m = m.
Proof.
  induction m as [|[a t] rest IH]; simpl; trivial.
  destruct (SameValueZero a k); [discriminate|].
  intro H. now rewrite IH.
Qed.

Lemma Map_get_In k m s :
  Map_get k m = Some s -> exists k', In (k', s) m /\ SameValueZero k' k = true.
Proof.
  induction m as [|[a t] rest IH]; simpl; [discriminate|].
  destruct (SameValueZero a k) eqn:E.
  - intros [= ->]. eauto.
  - intro H. destruct (IH H) as [k' [Hk' Hs]]. eauto.
Qed.

Lemma In_Map_get k s m : In (k, s) m -> Map_get k m <> None.
Proof.
  induction m as [|[a t] rest IH]; simpl; [tauto|].
  intros [[= -> ->]|H].
  - now rewrite SameValueZero_refl.
  - destruct (SameValueZero a k); [discriminate | auto].
Qed.

Lemma Map_get_nonempty k m s :
  all_nonempty m -> Map_get k m = Some s -> s <> [].
Proof.
  intros Hm H. destruct (Map_get_In _ _ _ H) as [k' [Hk' _]].
  unfold all_nonempty in Hm. rewrite Forall_forall in Hm.
  exact (Hm _ Hk').
Qed.

Lemma Map_get_delete_same k m :
  keys_unique m -> Map_get k (Map_delete k m) = None.
Proof.
  induction m as [|[a s] rest IH]; simpl; trivial.
  intros [Ha Hrest]. destruct (SameValueZero a k) eqn:Eak; simpl.
  - now rewrite <- (Map_get_congr a k rest Eak).
  - rewrite Eak. auto.
Qed.

Lemma keys_unique_mutate r f m : keys_unique m -> keys_unique (Map_mutate r f m).
Proof.
  induction m as [|[a s] rest IH]; simpl; trivial.
  intros [Ha Hrest]. destruct (SameValueZero a r); simpl; split; auto.
  rewrite Map_get_mutate, Ha. now destruct (SameValueZero r a).
Qed.

Lemma keys_unique_delete r m : keys_unique m -> keys_unique (Map_delete r m).
Proof.
  induction m as [|[a s] rest IH]; simpl; trivial.
  intros [Ha Hrest]. destruct (SameValueZero a r); simpl; auto.
  split; auto using Map_get_delete_None.
Qed.

Lemma keys_unique_app_absent k k0 s m :
  keys_unique m -> Map_get k m = None -> SameValueZero k0 k = true ->
  keys_unique (m ++ [(k0, s)]).
Proof.
  intros Hm Hk H0. induction m as [|[a t] rest IH]; simpl in *; auto.
  destruct Hm as [Ha Hrest].
  destruct (SameValueZero a k) eqn:Eak; [discriminate|].
  split; auto.
  rewrite Map_get_app, Ha. simpl.
  replace (SameValueZero k0 a) with false; trivial.
  symmetry. svz.
Qed.

End MapFacts.

Section SetFacts.

Implicit Types (x y : Socket) (s : SocketSet).

Lemma Set_has_In x s : Set_has x s = true <-> In x s.
Proof.
  unfold Set_has. rewrite existsb_exists. split.
  - intros [y [Hy E]]. apply Nat.eqb_eq in E. now subst.
  - intro H. exists x. split; trivial. apply Nat.eqb_refl.
Qed.

Lemma In_Set_add x y s : In y (Set_add x s) <-> y = x \/ In y s.
Proof.
  unfold Set_add. destruct (Set_has x s) eqn:E.
  - apply Set_has_In in E. split; [tauto|]. intros [->|H]; trivial.
  - rewrite in_app_iff. simpl. intuition congruence.
Qed.

Lemma In_Set_delete x y s : In y (Set_delete x s) <-> In y s /\ y <> x.
Proof.
  unfold Set_delete. rewrite filter_In, negb_true_iff, Nat.eqb_neq. tauto.
Qed.

Lemma Set_add_nonempty x s : Set_add x s <> [].
Proof.
  intro H. assert (G : In x (Set_add x s)) by (apply In_Set_add; auto).
  now rewrite H in G.
Qed.

Lemma NoDup_Set_add x s : NoDup s -> NoDup (Set_add x s).
Proof.
  intro H. unfold Set_add. destruct (Set_has x s) eqn:E; trivial.
  apply NoDup_app; trivial.
  - repeat constructor. simpl. tauto.
  - intros y Hy [<-|[]]. apply Set_has_In in Hy. congruence.
Qed.

Lemma NoDup_Set_delete x s : NoDup s -> NoDup (Set_delete x s).
Proof. apply NoDup_filter. Qed.

End SetFacts.

Section LeaveEnterFacts.

Implicit Types (k r : Value) (m : RoomMap) (s : SocketSet) (sock : Socket).

Lemma leave_off sock r m :
  truthy r && Map_has r m = false -> leave sock r m = m.
Proof. intro H. unfold leave. now rewrite H. Qed.

Lemma members_leave_other sock r k m :
  SameValueZero r k = false -> members k (leave sock r m) = members k m.
Proof.
  intro H. unfold leave, members.
  destruct (truthy r && Map_has r m); trivial. simpl.
  destruct (Nat.eqb _ 0).
  - rewrite Map_get_delete_other by trivial. now rewrite Map_get_mutate, H.
  - now rewrite Map_get_mutate, H.
Qed.

(** A room whose identifier is falsy never loses a member to [leave]. *)
Lemma members_leave_falsy sock r k m :
  truthy k = false -> members k (leave sock r m) = members k m.
Proof.
  intro Hk. destruct (truthy r && Map_has r m) eqn:G.
  - apply members_leave_other. apply andb_true_iff in G as [Hr _].
    destruct (SameValueZero r k) eqn:E; trivial.
    apply truthy_congr in E. congruence.
  - now rewrite leave_off.
Qed.

Lemma members_leave sock r k m :
  keys_unique m ->
  members k (leave sock r m) =
  if truthy r && Map_has r m && SameValueZero r k
  then Set_delete sock (members k m) else members k m.
Proof.
  intro Hu. unfold leave.
  destruct (truthy r && Map_has r m) eqn:G; simpl; trivial.
  apply andb_true_iff in G as [_ Hhas]. unfold Map_has in Hhas.
  destruct (Map_get r m) as [s0|] eqn:Hr; [clear Hhas | discriminate].
  assert (Hm1 : members r (Map_mutate r (Set_delete sock) m) = Set_delete sock s0).
  { unfold members. now rewrite Map_get_mutate, SameValueZero_refl, Hr. }
  rewrite Hm1. unfold members.
  destruct (SameValueZero r k) eqn:Erk.
  - rewrite <- (Map_get_congr r k m Erk), Hr.
    destruct (Nat.eqb (Set_size (Set_delete sock s0)) 0) eqn:Z.
    + rewrite <- (Map_get_congr r k _ Erk).
      rewrite Map_get_delete_same by now apply keys_unique_mutate.
      apply Nat.eqb_eq in Z. unfold Set_size in Z.
      now destruct (Set_delete sock s0).
    + rewrite <- (Map_get_congr r k _ Erk).
      now rewrite Map_get_mutate, SameValueZero_refl, Hr.
  - destruct (Nat.eqb (Set_size (Set_delete sock s0)) 0).
    + rewrite Map_get_delete_other by trivial.
      now rewrite Map_get_mutate, Erk.
    + now rewrite Map_get_mutate, Erk.
Qed.

Lemma prune_nonempty r f m :
  all_nonempty m ->
  all_nonempty
    (let m1 := Map_mutate r f m in
     if Nat.eqb (Set_size (members r m1)) 0 then Map_delete r m1 else m1).
Proof.
  unfold all_nonempty, members. induction m as [|[a s] rest IH]; simpl; intro H.
  - constructor.
  - inversion H as [|? ? Hs Hrest]; subst.
    destruct (SameValueZero a r) eqn:Ear; simpl; rewrite Ear.
    + destruct (Nat.eqb (Set_size (f s)) 0) eqn:Z; trivial.
      constructor; trivial. simpl. intro E. now rewrite E in Z.
    + specialize (IH Hrest). simpl in IH.
      destruct (Nat.eqb _ 0); constructor; trivial.
Qed.

Lemma leave_nonempty sock r m : all_nonempty m -> all_nonempty (leave sock r m).
Proof.
  intro H. unfold leave. destruct (truthy r && Map_has r m); trivial.
  now apply prune_nonempty.
Qed.

Lemma leave_unique sock r m : keys_unique m -> keys_unique (leave sock r m).
Proof.
  intro H. unfold leave. destruct (truthy r && Map_has r m); trivial.
  simpl. destruct (Nat.eqb _ 0).
  - now apply keys_unique_delete, keys_unique_mutate.
  - now apply keys_unique_mutate.
Qed.

Lemma enter_present sock r m s :
  Map_get r m = Some s -> enter sock r m = Map_mutate r (Set_add sock) m.
Proof. intro H. unfold enter, Map_has. now rewrite H. Qed.

Lemma enter_absent sock r m :
  Map_get r m = None -> enter sock r m = m ++ [(normalize_key r, [sock])].
Proof.
  intro H. unfold enter, Map_has. rewrite H, Map_set_absent by trivial.
  now rewrite Map_mutate_app_absent by auto using SameValueZero_normalize.
Qed.

Lemma members_enter sock r k m :
  members k (enter sock r m) =
  if SameValueZero r k then Set_add sock (members k m) else members k m.
Proof.
  unfold members. destruct (Map_get r m) as [s0|] eqn:Hr.
  - rewrite (enter_present _ _ _ _ Hr), Map_get_mutate.
    destruct (SameValueZero r k) eqn:Erk; trivial.
    now rewrite <- (Map_get_congr r k m Erk), Hr.
  - rewrite (enter_absent _ _ _ Hr), Map_get_app. simpl.
    destruct (SameValueZero r k) eqn:Erk.
    + rewrite <- (Map_get_congr r k m Erk), Hr.
      replace (SameValueZero (normalize_key r) k) with true; trivial.
      symmetry. pose proof (SameValueZero_normalize r). svz.
    + destruct (Map_get k m); trivial.
      replace (SameValueZero (normalize_key r) k) with false; trivial.
      symmetry. pose proof (SameValueZero_normalize r). svz.
Qed.

Lemma all_nonempty_mutate r f m :
  (forall s, f s <> []) -> all_nonempty m -> all_nonempty (Map_mutate r f m).
Proof.
  intros Hf. unfold all_nonempty.
  induction m as [|[a s] rest IH]; simpl; intro H; trivial.
  inversion H; subst. destruct (SameValueZero a r); constructor; simpl; auto.
Qed.

Lemma enter_nonempty sock r m : all_nonempty m -> all_nonempty (enter sock r m).
Proof.
  intro H. destruct (Map_get r m) as [s0|] eqn:Hr.
  - rewrite (enter_present _ _ _ _ Hr).
    apply all_nonempty_mutate; trivial. intro. apply Set_add_nonempty.
  - rewrite (enter_absent _ _ _ Hr). unfold all_nonempty in *.
    apply Forall_app. split; trivial. repeat constructor. discriminate.
Qed.

Lemma enter_unique sock r m : keys_unique m -> keys_unique (enter sock r m).
Proof.
  intro H. destruct (Map_get r m) as [s0|] eqn:Hr.
  - rewrite (enter_present _ _ _ _ Hr). now apply keys_unique_mutate.
  - rewrite (enter_absent _ _ _ Hr).
    apply keys_unique_app_absent with (k := r);
      auto using SameValueZero_normalize.
Qed.

End LeaveEnterFacts.

(** * Facts about the server *)

Section ServerFacts.

Variable deno : Platform.

Implicit Types (st : Server) (sock c : Socket) (ev : Event).

Lemma nth_error_update_nth {A : Type} (f : A -> A) (l : list A) (n i : nat) :
  nth_error (update_nth n f l) i =
  if Nat.eqb i n then option_map f (nth_error l i) else nth_error l i.
Proof.
  revert n i. induction l as [|x rest IH]; intros n i.
  - destruct n, i; simpl; trivial; try now destruct (Nat.eqb _ _).
  - destruct n, i; simpl; trivial.
Qed.

Lemma length_update_nth {A : Type} (f : A -> A) (l : list A) (n : nat) :
  List.length (update_nth n f l) = List.length l.
Proof.
  revert n. induction l as [|x rest IH]; intros [|n]; simpl; auto.
Qed.

Lemma readyState_of_join st sock items c :
  readyState_of (join st sock items) c = readyState_of st c.
Proof.
  unfold readyState_of, join. simpl. rewrite nth_error_update_nth.
  destruct (Nat.eqb c sock); trivial. now destruct (nth_error (conns st) c).
Qed.

Lemma is_open_join st sock items c :
  is_open (join st sock items) c = is_open st c.
Proof. unfold is_open. now rewrite readyState_of_join. Qed.

Lemma room_of_join_same st sock items :
  sock < List.length (conns st) ->
  room_of (join st sock items) sock = first_topic (next_ref st) items.
Proof.
  intro H. unfold room_of, join. simpl.
  rewrite nth_error_update_nth, Nat.eqb_refl.
  destruct (nth_error (conns st) sock) eqn:E; trivial.
  apply nth_error_None in E. lia.
Qed.

Lemma room_of_join_other st sock items c :
  c <> sock -> room_of (join st sock items) c = room_of st c.
Proof.
  intro H. unfold room_of, join. simpl. rewrite nth_error_update_nth.
  apply Nat.eqb_neq in H. now rewrite H.
Qed.

Lemma room_of_set_ready st s rs c :
  room_of (set_ready s rs st) c = room_of st c.
Proof.
  unfold room_of, set_ready. simpl. rewrite nth_error_update_nth.
  destruct (Nat.eqb c s); trivial. now destruct (nth_error (conns st) c).
Qed.

Lemma is_open_valid st c : is_open st c = true -> c < List.length (conns st).
Proof.
  unfold is_open, readyState_of. intro H. apply nth_error_Some.
  now destruct (nth_error (conns st) c).
Qed.

Lemma registry_ok_initial : registry_ok initial.
Proof. split; simpl; [trivial | constructor]. Qed.

Lemma registry_ok_join st sock items :
  registry_ok st -> registry_ok (join st sock items).
Proof.
  intros [Hu Hn]. split; simpl.
  - now apply enter_unique, leave_unique.
  - now apply enter_nonempty, leave_nonempty.
Qed.

Lemma registry_ok_on_message st sock data :
  registry_ok st -> registry_ok (fst (on_message deno st sock data)).
Proof.
  intro H. unfold on_message. destruct (JSON_parse deno data) as [d|]; trivial.
  assert (G : registry_ok
                match subscribe_topics d with
                | Some items => join st sock items
                | None => st
                end)
    by (destruct (subscribe_topics d); auto using registry_ok_join).
  destruct d; trivial.
Qed.

Lemma rooms_serve st req now date :
  rooms (fst (serve deno st req now date)) = rooms st.
Proof.
  unfold serve.
  destruct (_ || _); trivial. destruct (negb _); trivial.
  destruct (negb _); trivial.
Qed.

Lemma registry_ok_step st ev :
  registry_ok st -> registry_ok (fst (step deno st ev)).
Proof.
  intro H. destruct ev as [req now date|s|s data|s|s|s]; simpl.
  - pose proof (rooms_serve st req now date) as R.
    destruct (serve deno st req now date) as [st' resp]. simpl in *.
    unfold registry_ok. now rewrite R.
  - now destruct (ReadyState_eqb _ _).
  - destruct (is_open st s); trivial.
    pose proof (registry_ok_on_message st s data H) as R.
    now destruct (on_message deno st s data).
  - now destruct (readyState_of st s).
  - destruct H as [Hu Hn].
    destruct (readyState_of st s); trivial; split; simpl;
      auto using leave_unique, leave_nonempty.
  - trivial.
Qed.

Lemma run_app st evs evs' :
  fst (run deno st (evs ++ evs')) = fst (run deno (fst (run deno st evs)) evs').
Proof.
  revert st. induction evs as [|ev rest IH]; intro st; simpl; trivial.
  destruct (step deno st ev) as [st1 out1]. specialize (IH st1).
  destruct (run deno st1 (rest ++ evs')), (run deno st1 rest). simpl in *.
  exact IH.
Qed.

(** A property kept by every event holds after every run. *)
Lemma run_preserves (P : Server -> Prop) :
  (forall st ev, P st -> P (fst (step deno st ev))) ->
  forall evs st, P st -> P (fst (run deno st evs)).
Proof.
  intros Hstep evs. induction evs as [|ev rest IH]; intros st H; simpl; trivial.
  specialize (Hstep st ev H). destruct (step deno st ev) as [st1 out1].
  specialize (IH st1 Hstep). now destruct (run deno st1 rest).
Qed.

Lemma registry_ok_run st evs :
  registry_ok st -> registry_ok (fst (run deno st evs)).
Proof. apply run_preserves. intros. now apply registry_ok_step. Qed.

End ServerFacts.

Section StatsFacts.

Variable deno : Platform.

Lemma Record_get_set name name' n o :
  Record_get name (Record_set name' n o) =
  if String.eqb name' name then Some n else Record_get name o.
Proof.
  induction o as [|[a v] rest IH]; simpl.
  - reflexivity.
  - destruct (String.eqb a name') eqn:E1; simpl.
    + apply String.eqb_eq in E1. subst a.
      now destruct (String.eqb name' name).
    + rewrite IH. destruct (String.eqb a name) eqn:E2; trivial.
      apply String.eqb_eq in E2. subst a. now rewrite String.eqb_sym, E1.
Qed.

Lemma Record_get_fold name m acc :
  Record_get name
    (fold_left
       (fun stats e =>
          Record_set (property_name (Number_toString deno) (fst e))
                     (Set_size (snd e)) stats) m acc) =
  match reported deno name m with
  | Some n => Some n
  | None => Record_get name acc
  end.
Proof.
  revert acc. induction m as [|[k s] rest IH]; intro acc; simpl; trivial.
  rewrite IH. destruct (reported deno name rest); trivial.
  rewrite Record_get_set. now destruct (String.eqb _ name).
Qed.

Lemma Record_get_getRoomStats name m :
  Record_get name (getRoomStats deno m) = reported deno name m.
Proof.
  unfold getRoomStats. rewrite Record_get_fold. now destruct (reported deno name m).
Qed.

Lemma reported_None name m :
  reported deno name m = None <->
  forall k s, In (k, s) m -> property_name (Number_toString deno) k <> name.
Proof.
  induction m as [|[a t] rest IH]; simpl.
  - split; [intros _ k s [] | trivial].
  - destruct (reported deno name rest) as [n|].
    + split; [discriminate|]. intro H.
      assert (G : Some n = None) by (apply IH; intros k s Hk; apply (H k s); auto).
      discriminate G.
    + destruct (String.eqb _ name) eqn:E.
      * split; [discriminate|]. intro H. apply String.eqb_eq in E.
        now elim (H a t (or_introl eq_refl)).
      * apply String.eqb_neq in E. split; trivial.
        intros _ k s [[= <- <-]|Hk]; trivial.
        destruct IH as [IH _]. now apply (IH eq_refl k s).
Qed.

Lemma reported_Some name m n :
  reported deno name m = Some n ->
  exists k s, In (k, s) m /\
              property_name (Number_toString deno) k = name /\ n = Set_size s.
Proof.
  induction m as [|[a t] rest IH]; simpl; [discriminate|].
  destruct (reported deno name rest) as [n'|].
  - intros [= <-]. destruct (IH eq_refl) as (k & s & Hin & Hk & Hn).
    exists k, s. auto.
  - destruct (String.eqb _ name) eqn:E; [|discriminate].
    intros [= <-]. apply String.eqb_eq in E. exists a, t. auto.
Qed.

Lemma getTotalClients_sum m :
  getTotalClients m = list_sum (map (fun e => Set_size (snd e)) m).
Proof.
  unfold getTotalClients.
  assert (G : forall acc,
             fold_left (fun total e => total + Set_size (snd e)) m acc =
             acc + list_sum (map (fun e => Set_size (snd e)) m)).
  { induction m as [|e rest IH]; intro acc; simpl; [lia|]. rewrite IH. lia. }
  apply G.
Qed.

End StatsFacts.

Section ListenerFacts.

Variable deno : Platform.

Implicit Types (st : Server) (sock c : Socket) (data : string).

Lemma on_message_plain st sock data :
  is_subscribe deno data = false ->
  on_message deno st sock data = (st, fan_out st sock data).
Proof.
  unfold is_subscribe, on_message.
  destruct (JSON_parse deno data) as [d|]; trivial.
  destruct (subscribe_topics d) eqn:E; [discriminate|].
  intros _. now destruct d.
Qed.

Lemma on_message_subscribe st sock data d items :
  JSON_parse deno data = Some d -> subscribe_topics d = Some items ->
  on_message deno st sock data =
  (join st sock items, fan_out (join st sock items) sock data).
Proof.
  intros Hp Hs. unfold on_message. rewrite Hp.
  destruct d; try discriminate Hs. now rewrite Hs.
Qed.

Lemma fan_out_falsy st sock data :
  truthy (room_of st sock) = false -> fan_out st sock data = [].
Proof. intro H. unfold fan_out. now rewrite H. Qed.

(** Who receives what in a relay. *)
Lemma In_fan_out st sock data c d :
  In (c, d) (fan_out st sock data) <->
  d = data /\ truthy (room_of st sock) = true /\
  In c (members (room_of st sock) (rooms st)) /\ c <> sock /\
  is_open st c = true.
Proof.
  unfold fan_out. destruct (truthy (room_of st sock)) eqn:T; simpl.
  - unfold Map_has, members.
    destruct (Map_get (room_of st sock) (rooms st)) as [s|]; simpl.
    + rewrite in_map_iff. split.
      * intros [x [[= <- <-] Hx]]. apply filter_In in Hx as [Hin Hx].
        apply andb_true_iff in Hx as [Hne Ho].
        apply negb_true_iff, Nat.eqb_neq in Hne. auto.
      * intros (-> & _ & Hin & Hne & Ho). exists c. split; trivial.
        apply filter_In. split; trivial.
        apply andb_true_iff. split; trivial.
        now apply negb_true_iff, Nat.eqb_neq.
    + split; [intros [] | intros (_ & _ & [] & _)].
  - split; [intros [] | intros (_ & F & _); discriminate F].
Qed.

End ListenerFacts.

Section TraceFacts.

Variable deno : Platform.

Implicit Types (st : Server) (sock c : Socket) (ev : Event).

Lemma step_message st sock data :
  is_open st sock = true ->
  step deno st (SocketMessage sock data) =
  (fst (on_message deno st sock data),
   map (fun o => Sent (fst o) (snd o)) (snd (on_message deno st sock data))).
Proof.
  intro H. simpl. rewrite H. now destruct (on_message deno st sock data).
Qed.

Lemma step_message_closed st sock data :
  is_open st sock = false -> step deno st (SocketMessage sock data) = (st, []).
Proof. intro H. simpl. now rewrite H. Qed.

Lemma conns_serve st req now date :
  conns (fst (serve deno st req now date)) = conns st \/
  exists cn : Connection,
    conns (fst (serve deno st req now date)) = conns st ++ [cn].
Proof.
  unfold serve. destruct (_ || _); auto. destruct (negb _); auto.
  destruct (negb _); auto. right. simpl. eauto.
Qed.

Lemma conns_on_message st sock data :
  conns (fst (on_message deno st sock data)) = conns st \/
  exists items,
    is_subscribe deno data = true /\
    fst (on_message deno st sock data) = join st sock items.
Proof.
  destruct (is_subscribe deno data) eqn:E.
  - right. unfold is_subscribe in E.
    destruct (JSON_parse deno data) as [d|] eqn:Hp; [|discriminate].
    destruct (subscribe_topics d) as [items|] eqn:Hs; [|discriminate].
    exists items. split; trivial.
    now rewrite (on_message_subscribe deno st sock data d items Hp Hs).
  - left. now rewrite on_message_plain.
Qed.

Lemma length_conns_step st ev :
  List.length (conns st) <= List.length (conns (fst (step deno st ev))).
Proof.
  destruct ev as [req now date|s|s data|s|s|s]; simpl.
  - destruct (conns_serve st req now date) as [E|[c E]];
      destruct (serve deno st req now date); simpl in *; rewrite E.
    + lia.
    + rewrite length_app. lia.
  - destruct (ReadyState_eqb _ _); simpl; rewrite ?length_update_nth; lia.
  - destruct (is_open st s); [|simpl; lia].
    destruct (conns_on_message st s data) as [E|[items [_ E]]];
      destruct (on_message deno st s data); simpl in *; rewrite E; [lia|].
    simpl. rewrite length_update_nth. lia.
  - destruct (readyState_of st s); simpl; rewrite ?length_update_nth; lia.
  - destruct (readyState_of st s); simpl; rewrite ?length_update_nth; lia.
  - lia.
Qed.

(** Only its own subscribe changes the room pointer of a connection. *)
Lemma room_of_step_stable st ev sock :
  sock < List.length (conns st) ->
  (forall d, ev = SocketMessage sock d -> is_subscribe deno d = false) ->
  room_of (fst (step deno st ev)) sock = room_of st sock.
Proof.
  intros Hv Hev. destruct ev as [req now date|s|s data|s|s|s]; simpl.
  - destruct (conns_serve st req now date) as [E|[c E]];
      destruct (serve deno st req now date); simpl in *;
      unfold room_of; rewrite E; trivial.
    now rewrite nth_error_app1.
  - destruct (ReadyState_eqb _ _); simpl; trivial. apply room_of_set_ready.
  - destruct (is_open st s); trivial.
    destruct (conns_on_message st s data) as [E|[items [Hs E]]];
      destruct (on_message deno st s data); simpl in *.
    + unfold room_of. now rewrite E.
    + subst. apply room_of_join_other. intros ->.
      rewrite (Hev data eq_refl) in Hs. discriminate.
  - destruct (readyState_of st s); simpl; trivial; apply room_of_set_ready.
  - destruct (readyState_of st s); simpl; trivial;
      unfold room_of, on_close; simpl; apply room_of_set_ready.
  - trivial.
Qed.

Lemma room_of_run_stable evs st sock :
  sock < List.length (conns st) ->
  (forall d, In (SocketMessage sock d) evs -> is_subscribe deno d = false) ->
  room_of (fst (run deno st evs)) sock = room_of st sock.
Proof.
  revert st. induction evs as [|ev rest IH]; intros st Hv Hevs; simpl; trivial.
  pose proof (room_of_step_stable st ev sock Hv) as Hs.
  pose proof (length_conns_step st ev) as Hl.
  destruct (step deno st ev) as [st1 out1]. simpl in *.
  specialize (IH st1). destruct (run deno st1 rest) as [st2 out2]. simpl in *.
  rewrite IH.
  - apply Hs. intros d ->. apply Hevs. now left.
  - lia.
  - intros d Hd. apply Hevs. now right.
Qed.

(** A room whose identifier is falsy never loses a member. *)
Lemma members_falsy_step st ev k x :
  truthy k = false ->
  In x (members k (rooms st)) ->
  In x (members k (rooms (fst (step deno st ev)))).
Proof.
  intros Hk Hx. destruct ev as [req now date|s|s data|s|s|s]; simpl.
  - pose proof (rooms_serve deno st req now date) as R.
    destruct (serve deno st req now date). simpl in *. now rewrite R.
  - now destruct (ReadyState_eqb _ _).
  - destruct (is_open st s); trivial.
    destruct (conns_on_message st s data) as [E|[items [_ E]]].
    + destruct (is_subscribe deno data) eqn:Hs.
      * unfold is_subscribe in Hs.
        destruct (JSON_parse deno data) as [d|] eqn:Hp; [|discriminate].
        destruct (subscribe_topics d) as [items|] eqn:Ht; [|discriminate].
        rewrite (on_message_subscribe deno st s data d items Hp Ht). simpl.
        rewrite members_enter, members_leave_falsy by trivial.
        destruct (SameValueZero _ k); trivial. apply In_Set_add. auto.
      * now rewrite on_message_plain.
    + destruct (on_message deno st s data). simpl in *. subst. simpl.
      rewrite members_enter, members_leave_falsy by trivial.
      destruct (SameValueZero _ k); trivial. apply In_Set_add. auto.
  - now destruct (readyState_of st s).
  - destruct (readyState_of st s); simpl; trivial;
      now rewrite members_leave_falsy.
  - trivial.
Qed.

Lemma members_falsy_run evs st k x :
  truthy k = false ->
  In x (members k (rooms st)) ->
  In x (members k (rooms (fst (run deno st evs)))).
Proof.
  intros Hk. apply (run_preserves deno (fun st => In x (members k (rooms st)))).
  intros. now apply members_falsy_step.
Qed.

End TraceFacts.

(** * Membership consistency for truthy room identifiers *)

Section Consistency.

Variable deno : Platform.

Implicit Types (st : Server) (sock s : Socket) (ev : Event).

Lemma readyState_of_set_ready st s0 rs s :
  readyState_of (set_ready s0 rs st) s =
  if Nat.eqb s s0
  then match nth_error (conns st) s with Some _ => rs | None => CLOSED end
  else readyState_of st s.
Proof.
  unfold readyState_of, set_ready. simpl. rewrite nth_error_update_nth.
  destruct (Nat.eqb s s0); trivial. now destruct (nth_error (conns st) s).
Qed.

Lemma not_closed_valid st s :
  readyState_of st s <> CLOSED -> s < List.length (conns st).
Proof.
  unfold readyState_of. intro H. apply nth_error_Some.
  now destruct (nth_error (conns st) s).
Qed.

Lemma consistent_set_ready st s0 rs :
  rs <> CLOSED -> readyState_of st s0 <> CLOSED ->
  consistent_truthy st -> consistent_truthy (set_ready s0 rs st).
Proof.
  intros Hrs Hold [H2 H1]. split.
  - intros r s Hr Hin. rewrite room_of_set_ready, readyState_of_set_ready.
    simpl in Hin. destruct (H2 r s Hr Hin) as [Hsame Hlive]. split; trivial.
    destruct (Nat.eqb s s0); trivial.
    unfold readyState_of in Hlive. now destruct (nth_error (conns st) s).
  - intros s. rewrite room_of_set_ready, readyState_of_set_ready. simpl.
    destruct (Nat.eqb s s0) eqn:E.
    + apply Nat.eqb_eq in E. subst s0. intros _. now apply H1.
    + apply H1.
Qed.

Lemma consistent_upgrade st (cn : Connection) :
  truthy (room (clientInfo cn)) = false ->
  consistent_truthy st ->
  consistent_truthy
    {| rooms := rooms st;
       clients := WeakMap_set (List.length (conns st)) (clients st);
       conns := conns st ++ [cn];
       next_ref := next_ref st |}.
Proof.
  intros Hcn [H2 H1]. split.
  - intros r s Hr Hin. simpl in Hin.
    destruct (H2 r s Hr Hin) as [Hsame Hlive].
    pose proof (not_closed_valid st s Hlive) as Hv.
    unfold room_of, readyState_of in *. simpl.
    now rewrite nth_error_app1.
  - intros s. unfold room_of, readyState_of. simpl.
    destruct (Nat.lt_ge_cases s (List.length (conns st))) as [Hv|Hv].
    + rewrite nth_error_app1 by trivial. apply H1.
    + rewrite nth_error_app2 by trivial.
      destruct (s - List.length (conns st)) as [|n]; simpl.
      * intros _ F. congruence.
      * destruct n; simpl; intro F; now elim F.
Qed.

Lemma consistent_join st sock items :
  keys_unique (rooms st) -> is_open st sock = true ->
  consistent_truthy st -> consistent_truthy (join st sock items).
Proof.
  intros Hu Hopen [H2 H1].
  assert (Hv : sock < List.length (conns st)) by now apply is_open_valid.
  assert (Hlive : readyState_of st sock <> CLOSED).
  { unfold is_open in Hopen. now destruct (readyState_of st sock). }
  set (r0 := first_topic (next_ref st) items).
  split.
  - intros r s Hr Hin. rewrite readyState_of_join. simpl in Hin. fold r0 in Hin.
    rewrite members_enter in Hin.
    destruct (Nat.eq_dec s sock) as [->|Hne].
    + rewrite room_of_join_same by trivial. fold r0. split; trivial.
      destruct (SameValueZero r0 r) eqn:E0; trivial.
      exfalso. rewrite members_leave in Hin by trivial.
      destruct (truthy (room_of st sock) && Map_has (room_of st sock) (rooms st)
                && SameValueZero (room_of st sock) r) eqn:G.
      * apply In_Set_delete in Hin. tauto.
      * destruct (H2 r sock Hr Hin) as [Hsame _].
        rewrite Hsame, andb_true_r in G.
        rewrite (truthy_congr _ _ Hsame), Hr in G. simpl in G.
        unfold Map_has in G. rewrite (Map_get_congr _ _ _ Hsame) in G.
        unfold members in Hin. now destruct (Map_get r (rooms st)).
    + rewrite room_of_join_other by trivial.
      assert (Hold : In s (members r (rooms st))).
      { assert (G : In s (members r (leave sock (room_of st sock) (rooms st)))).
        { destruct (SameValueZero r0 r); trivial.
          apply In_Set_add in Hin as [->|Hin]; [contradiction | trivial]. }
        rewrite members_leave in G by trivial.
        destruct (_ && _); trivial. now apply In_Set_delete in G. }
      exact (H2 r s Hr Hold).
  - intros s. rewrite readyState_of_join. simpl. fold r0.
    rewrite members_enter.
    destruct (Nat.eq_dec s sock) as [->|Hne].
    + rewrite room_of_join_same by trivial. fold r0.
      rewrite SameValueZero_refl. intros _ _. apply In_Set_add. auto.
    + rewrite room_of_join_other by trivial. intros Hl Ht.
      specialize (H1 s Hl Ht).
      assert (G : In s (members (room_of st s)
                          (leave sock (room_of st sock) (rooms st)))).
      { rewrite members_leave by trivial.
        destruct (_ && _); trivial. apply In_Set_delete. auto. }
      destruct (SameValueZero r0 (room_of st s)); trivial.
      apply In_Set_add. auto.
Qed.

Lemma consistent_close st sock :
  keys_unique (rooms st) ->
  consistent_truthy st ->
  consistent_truthy (on_close (set_ready sock CLOSED st) sock).
Proof.
  intros Hu [H2 H1]. split.
  - intros r s Hr Hin. simpl in Hin. rewrite room_of_set_ready in Hin.
    unfold room_of at 1, readyState_of. simpl.
    change (SameValueZero (room_of (set_ready sock CLOSED st) s) r = true /\
            readyState_of (set_ready sock CLOSED st) s <> CLOSED).
    rewrite room_of_set_ready, readyState_of_set_ready.
    rewrite members_leave in Hin by trivial.
    destruct (truthy (room_of st sock) && Map_has (room_of st sock) (rooms st)
              && SameValueZero (room_of st sock) r) eqn:G.
    + apply In_Set_delete in Hin as [Hin Hne].
      apply Nat.eqb_neq in Hne. rewrite Hne. exact (H2 r s Hr Hin).
    + destruct (H2 r s Hr Hin) as [Hsame Hl]. split; trivial.
      destruct (Nat.eqb s sock) eqn:E; trivial.
      apply Nat.eqb_eq in E. subst s. exfalso.
      rewrite Hsame, andb_true_r in G.
      rewrite (truthy_congr _ _ Hsame), Hr in G. simpl in G.
      unfold Map_has in G. rewrite (Map_get_congr _ _ _ Hsame) in G.
      unfold members in Hin. now destruct (Map_get r (rooms st)).
  - intros s.
    change (readyState_of (set_ready sock CLOSED st) s <> CLOSED ->
            truthy (room_of (set_ready sock CLOSED st) s) = true ->
            In s (members (room_of (set_ready sock CLOSED st) s)
                    (leave sock (room_of (set_ready sock CLOSED st) sock)
                           (rooms st)))).
    rewrite !room_of_set_ready, readyState_of_set_ready.
    destruct (Nat.eqb s sock) eqn:E.
    + now destruct (nth_error (conns st) s).
    + intros Hl Ht. specialize (H1 s Hl Ht).
      rewrite members_leave by trivial.
      destruct (_ && _); trivial. apply In_Set_delete.
      apply Nat.eqb_neq in E. auto.
Qed.

Lemma serve_cases st req now date :
  fst (serve deno st req now date) = st \/
  exists cn,
    truthy (room (clientInfo cn)) = false /\
    fst (serve deno st req now date) =
    {| rooms := rooms st;
       clients := WeakMap_set (List.length (conns st)) (clients st);
       conns := conns st ++ [cn];
       next_ref := next_ref st |}.
Proof.
  unfold serve. destruct (_ || _); auto. destruct (negb _); auto.
  destruct (negb _); auto. right.
  eexists. split; [|reflexivity]. reflexivity.
Qed.

Lemma consistent_step st ev :
  registry_ok st -> consistent_truthy st ->
  consistent_truthy (fst (step deno st ev)).
Proof.
  intros [Hu _] Hc. destruct ev as [req now date|s|s data|s|s|s]; simpl.
  - destruct (serve_cases st req now date) as [E|[cn [Hcn E]]];
      destruct (serve deno st req now date); simpl in *; subst; trivial.
    now apply consistent_upgrade.
  - destruct (ReadyState_eqb (readyState_of st s) CONNECTING) eqn:E; trivial.
    apply consistent_set_ready; trivial; try discriminate.
    now destruct (readyState_of st s).
  - destruct (is_open st s) eqn:Ho; trivial.
    destruct (conns_on_message deno st s data) as [E|[items [_ E]]].
    + destruct (is_subscribe deno data) eqn:Hs.
      * unfold is_subscribe in Hs.
        destruct (JSON_parse deno data) as [d|] eqn:Hp; [|discriminate].
        destruct (subscribe_topics d) as [items|] eqn:Ht; [|discriminate].
        rewrite (on_message_subscribe deno st s data d items Hp Ht). simpl.
        now apply consistent_join.
      * now rewrite on_message_plain.
    + destruct (on_message deno st s data). simpl in *. subst.
      now apply consistent_join.
  - destruct (readyState_of st s) eqn:E; trivial;
      apply consistent_set_ready; trivial; try discriminate;
      rewrite E; discriminate.
  - destruct (readyState_of st s) eqn:E; trivial;
      now apply consistent_close.
  - trivial.
Qed.

Lemma consistent_initial : consistent_truthy initial.
Proof.
  split.
  - intros r s _ [].
  - intros s H. unfold readyState_of in H. simpl in H.
    now destruct s.
Qed.

Lemma consistent_run evs :
  consistent_truthy (state_after deno evs).
Proof.
  assert (G : registry_ok (state_after deno evs) /\
              consistent_truthy (state_after deno evs)).
  { unfold state_after.
    apply (run_preserves deno
             (fun st => registry_ok st /\ consistent_truthy st)).
    - intros st ev [Hok Hc]. split.
      + now apply registry_ok_step.
      + now apply consistent_step.
    - split; [apply registry_ok_initial | apply consistent_initial]. }
  apply G.
Qed.

End Consistency.

Section Relay_facts.

Variable deno : Platform.

Lemma snd_on_message st sock data :
  snd (on_message deno st sock data) =
  fan_out (fst (on_message deno st sock data)) sock data.
Proof.
  unfold on_message. destruct (JSON_parse deno data) as [d|]; trivial.
  now destruct d.
Qed.

Lemma is_open_on_message st sock data c :
  is_open (fst (on_message deno st sock data)) c = is_open st c.
Proof.
  destruct (conns_on_message deno st sock data) as [E|[items [_ E]]].
  - unfold is_open, readyState_of. now rewrite E.
  - rewrite E. apply is_open_join.
Qed.

End Relay_facts.

(** * The claims *)

(** C1 (the code at the failing input).  A client that subscribes to the
    room [""] and then to the room ["A"] is in the member sets of both, its
    room pointer naming only the second; and a client that subscribes to [""]
    and disconnects stays in that member set. *)
Theorem C1_member_of_two_rooms :
  let st := state_after Examples.deno Examples.empty_then_A in
  let st' := state_after Examples.deno Examples.empty_then_close in
  (In 0 (members (VString "") (rooms st)) /\
   In 0 (members (VString "A") (rooms st)) /\
   room_of st 0 = VString "A") /\
  (In 0 (members (VString "") (rooms st')) /\
   readyState_of st' 0 = CLOSED /\ clients st' = []).
Proof. vm_compute. intuition. Qed.

(** C2 (the code at the failing input).  Two open clients are the members of
    the room [""]; a message one of them sends is delivered to nobody. *)
Theorem C2_no_delivery_in_empty_named_room :
  let st := state_after Examples.deno Examples.two_in_empty in
  members (VString "") (rooms st) = [0; 1] /\
  is_open st 0 = true /\ is_open st 1 = true /\
  step Examples.deno st (Examples.says 0 Examples.ping) = (st, []).
Proof. vm_compute. intuition. Qed.

(** C3 (the code at the failing input).  A WebSocket handshake on the path
    [/] that presents the configured secret is answered by the health branch:
    status 200, no upgrade, no session. *)
Theorem C3_handshake_on_root_not_upgraded (deno : Platform) (st : Server)
  (performance_now : Q) (date : Z) :
  let req := {| pathname := "/";
                header_upgrade := Some "websocket";
                header_sec_websocket_protocol := Some (SIGNALING_PASSWORD deno) |} in
  serve deno st req performance_now date =
    (st, Health (health deno st performance_now)) /\
  status_code (snd (serve deno st req performance_now date)) = 200.
Proof. split; reflexivity. Qed.

(** C4 (counterexample).  A message whose [action] is "subscribe" and that
    carries topics is not taken for a subscribe: the sender joins no room. *)
Lemma C4_action_is_not_read :
  let st := state_after Examples.deno Examples.one_idle in
  let data := Examples.text_of (Examples.action_subscribe_to ["r"]) in
  JSON_parse Examples.deno data = Some (Examples.action_subscribe_to ["r"]) /\
  is_open st 0 = true /\
  step Examples.deno st (SocketMessage 0 data) = (st, []) /\
  members (VString "r") (rooms st) = [].
Proof. vm_compute. intuition. Qed.

(** C4 (amended).  For every structured message whose [type] is "subscribe"
    and whose [topics] is an array with a first element (the property
    [action] is not read), the sending connection is afterwards a member of
    the room named by the first element and its room pointer names that room;
    the state reached is the one the same subscribe with the first topic alone
    reaches; and no connection is in a room of another name afterwards that it
    was not in before. *)
Theorem C4_first_topic_wins (deno : Platform) (evs : list Event)
  (sock : Socket) (data : string) (props : list (string * JSON))
  (first : JSON) (more : list JSON) :
  let st := state_after deno evs in
  is_open st sock = true ->
  JSON_parse deno data = Some (JObject props) ->
  get_prop "type" props = Some (JString "subscribe") ->
  get_prop "topics" props = Some (JArray (first :: more)) ->
  let st' := fst (step deno st (SocketMessage sock data)) in
  let r := to_value (next_ref st) first in
  In sock (members r (rooms st')) /\
  room_of st' sock = r /\
  st' = join st sock [first] /\
  (forall k x, SameValueZero r k = false ->
     In x (members k (rooms st')) -> In x (members k (rooms st))).
Proof.
  intros st Hopen Hparse Htype Htopics st' r.
  assert (Hsub : subscribe_topics (JObject props) = Some (first :: more))
    by (simpl; now rewrite Htype, Htopics).
  assert (Hst' : st' = join st sock (first :: more)).
  { unfold st'. rewrite step_message by exact Hopen.
    now rewrite (on_message_subscribe deno st sock data _ _ Hparse Hsub). }
  assert (Hok : registry_ok st)
    by (apply registry_ok_run, registry_ok_initial).
  destruct Hok as [Hu _].
  repeat split.
  - rewrite Hst'. simpl. rewrite members_enter.
    fold r. rewrite SameValueZero_refl. apply In_Set_add. auto.
  - rewrite Hst'. apply room_of_join_same. now apply is_open_valid.
  - exact Hst'.
  - intros k x Hk. rewrite Hst'. simpl. fold r.
    rewrite members_enter, Hk, members_leave by exact Hu.
    destruct (_ && _); trivial. intro H. now apply In_Set_delete in H.
Qed.

Lemma C4_first_topic_wins_witness :
  let st := state_after Examples.deno Examples.one_idle in
  let st' := fst (step Examples.deno st
                       (Examples.says 0 (Examples.subscribe_to ["A"; "B"]))) in
  In 0 (members (VString "A") (rooms st')) /\
  room_of st' 0 = VString "A" /\
  members (VString "B") (rooms st') = [].
Proof.
  pose proof (C4_first_topic_wins Examples.deno Examples.one_idle 0
                (Examples.text_of (Examples.subscribe_to ["A"; "B"]))
                [("type", JString "subscribe");
                 ("topics", JArray [JString "A"; JString "B"])]
                (JString "A") [JString "B"]
                eq_refl eq_refl eq_refl eq_refl) as (Hin & Hroom & _).
  split; [exact Hin | split; [exact Hroom | reflexivity]].
Defined.

(** C5.  After every sequence of events, a room identifier is absent from the
    registry exactly when its member set is empty, so every room the registry
    holds has a member; and the stats projection has no entry under a name
    exactly when no room of the registry bears that name, every count it
    reports being at least one. *)
Theorem C5_no_empty_room (deno : Platform) (evs : list Event) :
  let st := state_after deno evs in
  (forall k, Map_has k (rooms st) = false <-> members k (rooms st) = []) /\
  (forall k s, In (k, s) (rooms st) -> s <> []) /\
  (forall name,
      Record_get name (getRoomStats deno (rooms st)) = None <->
      forall k s, In (k, s) (rooms st) ->
                  property_name (Number_toString deno) k <> name) /\
  (forall name n,
      Record_get name (getRoomStats deno (rooms st)) = Some n -> 1 <= n).
Proof.
  intro st.
  assert (Hok : registry_ok st)
    by (apply registry_ok_run, registry_ok_initial).
  destruct Hok as [_ Hne].
  assert (Hall : forall k s, In (k, s) (rooms st) -> s <> []).
  { intros k s Hin. unfold all_nonempty in Hne. rewrite Forall_forall in Hne.
    exact (Hne _ Hin). }
  repeat split.
  - unfold Map_has, members. now destruct (Map_get k (rooms st)).
  - unfold Map_has, members. destruct (Map_get k (rooms st)) eqn:E; trivial.
    intros ->. now elim (Map_get_nonempty _ _ _ Hne E).
  - exact Hall.
  - rewrite Record_get_getRoomStats. apply reported_None.
  - rewrite Record_get_getRoomStats. apply reported_None.
  - intros name n. rewrite Record_get_getRoomStats. intro H.
    destruct (reported_Some _ _ _ _ H) as (k & s & Hin & _ & ->).
    specialize (Hall k s Hin). unfold Set_size. destruct s; [easy | simpl; lia].
Qed.

(** C6 (the code at the failing input).  Client 0 is in the room [""] when
    client 1 subscribes to it: client 1 joins, and its subscribe message is
    sent to nobody. *)
Theorem C6_subscribe_to_empty_named_room_not_relayed :
  let st := state_after Examples.deno Examples.one_in_empty in
  let res := step Examples.deno st
                  (Examples.says 1 (Examples.subscribe_to [""])) in
  is_subscribe Examples.deno (Examples.text_of (Examples.subscribe_to [""]))
    = true /\
  members (VString "") (rooms st) = [0] /\ is_open st 0 = true /\
  members (VString "") (rooms (fst res)) = [0; 1] /\
  snd res = [].
Proof. vm_compute. intuition. Qed.

(** C7.  A message that is not a subscribe, received on a session whose
    [currentRoom] is unset ([null] as at connection time, or any other value
    the guard [clientInfo.room && ...] takes for unset), is relayed to nobody,
    sender included, and leaves the whole server state as it was. *)
Theorem C7_orphan_message_dropped (deno : Platform) (st : Server)
  (sock : Socket) (data : string) :
  truthy (room_of st sock) = false ->
  is_subscribe deno data = false ->
  on_message deno st sock data = (st, []).
Proof.
  intros Hroom Hplain.
  rewrite on_message_plain by exact Hplain.
  now rewrite fan_out_falsy.
Qed.

Lemma C7_orphan_message_dropped_witness :
  room_of (state_after Examples.deno Examples.one_idle) 0 = VNull /\
  on_message Examples.deno (state_after Examples.deno Examples.one_idle) 0
             (Examples.text_of Examples.ping) =
  (state_after Examples.deno Examples.one_idle, []).
Proof.
  split; [reflexivity|].
  apply (C7_orphan_message_dropped Examples.deno
           (state_after Examples.deno Examples.one_idle) 0
           (Examples.text_of Examples.ping)); reflexivity.
Defined.

(** C8 (the code at the failing input).  Two open clients are the members of
    the room [""]; a payload that is not JSON, sent by one of them, is
    delivered to nobody. *)
Theorem C8_malformed_not_relayed_in_empty_named_room :
  let st := state_after Examples.deno Examples.two_in_empty in
  JSON_parse Examples.deno "hello" = None /\
  room_of st 0 = VString "" /\
  members (VString "") (rooms st) = [0; 1] /\ is_open st 1 = true /\
  step Examples.deno st (SocketMessage 0 "hello") = (st, []).
Proof. vm_compute. intuition. Qed.

(** C9 (counterexample).  One authenticated connection is open and has not
    subscribed: the health response reports a total of zero clients. *)
Lemma C9_idle_connection_not_counted :
  open_connections (state_after Examples.deno Examples.one_idle) = 1 /\
  serve Examples.deno (state_after Examples.deno Examples.one_idle)
        (Examples.get "/health") (Qmake 0 1) 0%Z =
    (state_after Examples.deno Examples.one_idle,
     Health {| status := "ok"; totalRooms := 0; totalClients := 0;
               roomCounts := []; uptime := Qdiv (Qmake 0 1) (Qmake 1000 1) |}).
Proof. split; reflexivity. Qed.

(** C9 (amended).  A request to the health path ([/health] or [/]) is
    answered whatever credential or upgrade header it carries, leaves the
    server state as it was, and returns: the status "ok"; the number of rooms
    of the registry; as total client count the sum of the sizes of the member
    sets (a connection that joined no room is not counted); for every room of
    the registry an entry under its name, every entry being the size of the
    member set of a room of that name; and the uptime, the clock reading in
    milliseconds divided by 1000. *)
Theorem C9_health_surface (deno : Platform) (st : Server) (req : Request)
  (performance_now : Q) (date : Z) :
  pathname req = "/health" \/ pathname req = "/" ->
  exists h,
    serve deno st req performance_now date = (st, Health h) /\
    status h = "ok" /\
    totalRooms h = List.length (rooms st) /\
    totalClients h = list_sum (map (fun e => List.length (snd e)) (rooms st)) /\
    (forall k s, In (k, s) (rooms st) ->
       Record_get (property_name (Number_toString deno) k) (roomCounts h)
         <> None) /\
    (forall name n, Record_get name (roomCounts h) = Some n ->
       exists k s, In (k, s) (rooms st) /\
                   property_name (Number_toString deno) k = name /\
                   n = List.length s) /\
    uptime h = Qdiv performance_now (Qmake 1000 1).
Proof.
  intro Hpath. exists (health deno st performance_now).
  repeat split.
  - unfold serve.
    destruct Hpath as [-> | ->]; reflexivity.
  - simpl. apply getTotalClients_sum.
  - intros k s Hin. simpl. rewrite Record_get_getRoomStats. intro H.
    exact (proj1 (reported_None deno _ _) H k s Hin eq_refl).
  - intros name n. simpl. rewrite Record_get_getRoomStats.
    apply reported_Some.
Qed.

Lemma C9_health_surface_witness :
  exists h,
    serve Examples.deno (state_after Examples.deno Examples.two_in_A)
          (Examples.get "/health") (Qmake 2500 1) 0%Z =
      (state_after Examples.deno Examples.two_in_A, Health h) /\
    totalRooms h = 1 /\ totalClients h = 2 /\
    Record_get "A" (roomCounts h) = Some 2.
Proof.
  destruct (C9_health_surface Examples.deno
              (state_after Examples.deno Examples.two_in_A)
              (Examples.get "/health") (Qmake 2500 1) 0%Z
              (or_introl eq_refl))
    as (h & Hserve & _).
  exists h. split; [exact Hserve|].
  injection Hserve as <-. repeat split.
Defined.

(** C10.  A subscribe whose topics array is empty takes the subscribe branch
    with the room identifier [undefined]: the connection is taken out of the
    room its pointer named, is added to the registry entry keyed by
    [undefined], and its room pointer is [undefined], which the guards take
    for unset.  From then on, as long as it does not subscribe again, no
    message it sends is relayed or changes the state; and after every further
    sequence of events, its close included, it is still a member of that
    entry, which the registry and the stats (under the name "undefined")
    still show. *)
Theorem C10_empty_topics_phantom_room (deno : Platform) (evs : list Event)
  (sock : Socket) (data : string) (props : list (string * JSON)) :
  let st := state_after deno evs in
  is_open st sock = true ->
  JSON_parse deno data = Some (JObject props) ->
  get_prop "type" props = Some (JString "subscribe") ->
  get_prop "topics" props = Some (JArray []) ->
  let st1 := fst (step deno st (SocketMessage sock data)) in
  is_subscribe deno data = true /\
  (truthy (room_of st sock) = true ->
   ~ In sock (members (room_of st sock) (rooms st1))) /\
  In sock (members VUndefined (rooms st1)) /\
  room_of st1 sock = VUndefined /\
  (forall later data',
     (forall d, In (SocketMessage sock d) later ->
                is_subscribe deno d = false) ->
     is_subscribe deno data' = false ->
     let st2 := fst (run deno st1 later) in
     step deno st2 (SocketMessage sock data') = (st2, [])) /\
  (forall later,
     let st2 := fst (run deno st1 later) in
     In sock (members VUndefined (rooms st2)) /\
     Map_has VUndefined (rooms st2) = true /\
     exists n,
       Record_get "undefined" (getRoomStats deno (rooms st2)) = Some n /\
       1 <= n).
Proof.
  intros st Hopen Hparse Htype Htopics st1.
  assert (Hsub : subscribe_topics (JObject props) = Some [])
    by (simpl; now rewrite Htype, Htopics).
  assert (Hst1 : st1 = join st sock []).
  { unfold st1. rewrite step_message by exact Hopen.
    now rewrite (on_message_subscribe deno st sock data _ _ Hparse Hsub). }
  assert (Hok : registry_ok st)
    by (apply registry_ok_run, registry_ok_initial).
  assert (Hvalid : sock < List.length (conns st)) by now apply is_open_valid.
  assert (Hin1 : In sock (members VUndefined (rooms st1))).
  { rewrite Hst1. simpl. rewrite members_enter. simpl.
    apply In_Set_add. auto. }
  assert (Hroom1 : room_of st1 sock = VUndefined)
    by (rewrite Hst1; now apply room_of_join_same).
  split; [|split; [|split; [|split; [|split]]]].
  - unfold is_subscribe. now rewrite Hparse, Hsub.
  - intros Htruthy. rewrite Hst1. simpl. rewrite members_enter.
    replace (SameValueZero VUndefined (room_of st sock)) with false
      by (now destruct (room_of st sock)).
    rewrite members_leave by apply Hok.
    rewrite Htruthy, SameValueZero_refl. simpl.
    unfold Map_has, members.
    destruct (Map_get (room_of st sock) (rooms st)); simpl.
    + intro H. apply In_Set_delete in H. tauto.
    + intros [].
  - exact Hin1.
  - exact Hroom1.
  - intros later data' Hlater Hplain st2.
    destruct (is_open st2 sock) eqn:Ho.
    + rewrite step_message by exact Ho.
      rewrite on_message_plain by exact Hplain. simpl.
      rewrite fan_out_falsy; trivial.
      unfold st2. rewrite room_of_run_stable; trivial.
      * now rewrite Hroom1.
      * rewrite Hst1. simpl. now rewrite length_update_nth.
    + now apply step_message_closed.
  - intros later st2.
    assert (Hin2 : In sock (members VUndefined (rooms st2)))
      by (now apply members_falsy_run).
    assert (Hok2 : registry_ok st2).
    { apply registry_ok_run. rewrite Hst1. now apply registry_ok_join. }
    unfold Map_has, members in *.
    destruct (Map_get VUndefined (rooms st2)) as [s|] eqn:Hget; [|now elim Hin2].
    split; [exact Hin2 | split; [reflexivity|]].
    destruct (Map_get_In _ _ _ Hget) as (k & Hk & Hsame).
    assert (k = VUndefined) by (now destruct k). subst k.
    rewrite Record_get_getRoomStats.
    destruct (reported deno "undefined" (rooms st2)) as [n|] eqn:Hrep.
    + exists n. split; trivial.
      destruct (reported_Some _ _ _ _ Hrep) as (k & t & Hin & _ & ->).
      destruct Hok2 as [_ Hne]. unfold all_nonempty in Hne.
      rewrite Forall_forall in Hne. specialize (Hne _ Hin). simpl in Hne.
      unfold Set_size. destruct t; [easy | simpl; lia].
    + exfalso. exact (proj1 (reported_None deno _ _) Hrep _ _ Hk eq_refl).
Qed.

Lemma C10_empty_topics_phantom_room_witness :
  let st1 := state_after Examples.deno
               (Examples.A_then_no_topic ++
                [Examples.says 0 (Examples.subscribe_to [])]) in
  members (VString "A") (rooms st1) = [] /\
  room_of st1 0 = VUndefined /\
  In 0 (members VUndefined (rooms (fst (run Examples.deno st1 [SocketClose 0])))).
Proof.
  pose proof (C10_empty_topics_phantom_room Examples.deno
                Examples.A_then_no_topic 0
                (Examples.text_of (Examples.subscribe_to []))
                [("type", JString "subscribe"); ("topics", JArray [])]
                eq_refl eq_refl eq_refl eq_refl)
    as (_ & _ & _ & Hroom & _ & Hlater).
  split; [reflexivity | split; [exact Hroom|]].
  exact (proj1 (Hlater [SocketClose 0])).
Defined.

(** * Companion results *)

(** X1.  Membership is consistent for rooms with a truthy identifier: after every
    sequence of events, a connection that is not closed is in the member set
    of such a room exactly when its room pointer names the room; no
    connection is in the member sets of two such rooms; and no closed
    connection is in any of them. *)
Theorem consistency_for_truthy_rooms (deno : Platform) (evs : list Event) :
  let st := state_after deno evs in
  (forall r s, truthy r = true -> readyState_of st s <> CLOSED ->
     (In s (members r (rooms st)) <-> SameValueZero (room_of st s) r = true)) /\
  (forall r1 r2 s, truthy r1 = true -> truthy r2 = true ->
     In s (members r1 (rooms st)) -> In s (members r2 (rooms st)) ->
     SameValueZero r1 r2 = true) /\
  (forall r s, truthy r = true -> In s (members r (rooms st)) ->
     readyState_of st s <> CLOSED).
Proof.
  intro st. destruct (consistent_run deno evs) as [H2 H1]. fold st in H2, H1.
  split; [|split].
  - intros r s Hr Hlive. split.
    + intro Hin. now apply H2.
    + intro Hsame. specialize (H1 s Hlive).
      rewrite (truthy_congr _ _ Hsame) in H1. specialize (H1 Hr).
      unfold members in *. now rewrite <- (Map_get_congr _ _ _ Hsame).
  - intros r1 r2 s T1 T2 I1 I2.
    destruct (H2 r1 s T1 I1) as [S1 _]. destruct (H2 r2 s T2 I2) as [S2 _].
    svz.
  - intros r s T I. now destruct (H2 r s T I).
Qed.

(** X2.  Relay within a room with a truthy identifier: when an open connection
    sends a message (a subscribe included, the room being the one it is in
    once the message is handled), every other open member of its room is sent
    the payload as received, and nothing is sent to anyone else, the sender
    included. *)
Theorem relay_in_truthy_room (deno : Platform) (evs : list Event)
  (sender : Socket) (data : string) (r : Value) :
  let st := state_after deno evs in
  let res := step deno st (SocketMessage sender data) in
  is_open st sender = true ->
  truthy r = true ->
  In sender (members r (rooms (fst res))) ->
  (forall b, In b (members r (rooms (fst res))) -> b <> sender ->
             is_open st b = true -> In (Sent b data) (snd res)) /\
  (forall c d, In (Sent c d) (snd res) ->
               d = data /\ c <> sender /\
               In c (members r (rooms (fst res))) /\ is_open st c = true) /\
  (forall resp, ~ In (Responded resp) (snd res)).
Proof.
  intros st res Hopen Hr Hin.
  assert (Hres : res = (fst (on_message deno st sender data),
                        map (fun o => Sent (fst o) (snd o))
                            (snd (on_message deno st sender data))))
    by (unfold res; now apply step_message).
  assert (Hreach : fst res = state_after deno (evs ++ [SocketMessage sender data])).
  { unfold state_after. rewrite run_app. fold (state_after deno evs). fold st.
    simpl. rewrite Hopen, Hres.
    now destruct (on_message deno st sender data). }
  assert (Hc : consistent_truthy (fst res))
    by (rewrite Hreach; apply consistent_run).
  destruct Hc as [H2 _]. destruct (H2 r sender Hr Hin) as [Hsame _].
  assert (Hmem : members (room_of (fst res) sender) (rooms (fst res)) =
                 members r (rooms (fst res)))
    by (unfold members; now rewrite (Map_get_congr _ _ _ Hsame)).
  assert (Hsent : forall c d,
             In (Sent c d) (snd res) <->
             In (c, d) (fan_out (fst res) sender data)).
  { intros c d. rewrite Hres at 1. simpl. rewrite snd_on_message.
    rewrite Hres. simpl. rewrite in_map_iff. split.
    - intros [[c' d'] [[= <- <-] Hx]]. exact Hx.
    - intro Hx. exists (c, d). auto. }
  assert (Hopen' : forall c, is_open (fst res) c = is_open st c).
  { intro c. rewrite Hres. simpl. apply is_open_on_message. }
  repeat split.
  - intros b Hb Hne Hob. apply Hsent, In_fan_out.
    rewrite Hmem, Hopen', (truthy_congr _ _ Hsame). auto.
  - apply Hsent, In_fan_out in H. tauto.
  - apply Hsent, In_fan_out in H. tauto.
  - apply Hsent, In_fan_out in H. rewrite Hmem in H. tauto.
  - apply Hsent, In_fan_out in H. rewrite Hopen' in H. tauto.
  - intros resp H. rewrite Hres in H. simpl in H.
    apply in_map_iff in H as [o [F _]]. discriminate F.
Qed.

Lemma relay_in_truthy_room_witness :
  let st := state_after Examples.deno Examples.two_in_A in
  In (Sent 1 "hello") (snd (step Examples.deno st (SocketMessage 0 "hello"))).
Proof.
  pose proof (relay_in_truthy_room Examples.deno Examples.two_in_A 0 "hello"
                (VString "A") eq_refl eq_refl (or_introl eq_refl)) as [H _].
  apply (H 1).
  - right. left. reflexivity.
  - discriminate.
  - reflexivity.
Defined.



(** * Sessions, the session table and the sockets in the registry *)

Section RegistryShape.

Implicit Types (k r : Value) (m : RoomMap) (s : SocketSet) (sock : Socket).

Variable P : SocketSet -> Prop.

Lemma Forall_Map_mutate r f m :
  (forall s, P s -> P (f s)) ->
  Forall (fun e => P (snd e)) m ->
  Forall (fun e => P (snd e)) (Map_mutate r f m).
Proof.
  intro Hf. induction m as [|[a s] rest IH]; simpl; intro H; trivial.
  inversion H; subst. destruct (SameValueZero a r); constructor; simpl; auto.
Qed.

Lemma Forall_Map_delete r m :
  Forall (fun e => P (snd e)) m ->
  Forall (fun e => P (snd e)) (Map_delete r m).
Proof.
  induction m as [|[a s] rest IH]; simpl; intro H; trivial.
  inversion H; subst. destruct (SameValueZero a r); auto.
Qed.

Lemma Forall_leave sock r m :
  (forall s, P s -> P (Set_delete sock s)) ->
  Forall (fun e => P (snd e)) m ->
  Forall (fun e => P (snd e)) (leave sock r m).
Proof.
  intros Hf H. unfold leave. destruct (truthy r && Map_has r m); trivial.
  simpl. destruct (Nat.eqb _ 0).
  - now apply Forall_Map_delete, Forall_Map_mutate.
  - now apply Forall_Map_mutate.
Qed.

Lemma Forall_enter sock r m :
  (forall s, P s -> P (Set_add sock s)) -> P [sock] ->
  Forall (fun e => P (snd e)) m ->
  Forall (fun e => P (snd e)) (enter sock r m).
Proof.
  intros Hf H1 H. destruct (Map_get r m) as [s0|] eqn:Hr.
  - rewrite (enter_present _ _ _ _ Hr). now apply Forall_Map_mutate.
  - rewrite (enter_absent _ _ _ Hr). apply Forall_app. split; trivial.
    repeat constructor. exact H1.
Qed.

End RegistryShape.

Section Sessions.

Variable deno : Platform.

Implicit Types (st : Server) (sock s : Socket) (ev : Event).

Lemma SIGNALING_PASSWORD_not_empty : SIGNALING_PASSWORD deno <> "".
Proof.
  unfold SIGNALING_PASSWORD.
  destruct (env_SIGNALING_PASSWORD deno) as [v|]; [|discriminate].
  destruct (String.eqb v "") eqn:E; [discriminate|].
  now apply String.eqb_neq.
Qed.

Lemma serve_authenticated st req now date :
  authenticated deno req = true ->
  serve deno st req now date =
  ({| rooms := rooms st;
      clients := WeakMap_set (List.length (conns st)) (clients st);
      conns := conns st ++
               [{| clientInfo := {| room := VNull;
                                    socket := List.length (conns st);
                                    connectedAt := date |};
                   readyState := CONNECTING |}];
      next_ref := next_ref st |},
   SwitchingProtocols (SIGNALING_PASSWORD deno) (List.length (conns st))).
Proof.
  unfold authenticated, serve. intro H.
  apply andb_true_iff in H as [H Hp]. apply andb_true_iff in H as [Hh Hu].
  apply negb_true_iff in Hh. now rewrite Hh, Hu, Hp.
Qed.

Lemma serve_not_authenticated st req now date :
  authenticated deno req = false ->
  fst (serve deno st req now date) = st /\
  status_code (snd (serve deno st req now date)) <> 101.
Proof.
  unfold authenticated, serve. intro H.
  destruct (_ || _); simpl in *; [split; [trivial | discriminate]|].
  destruct (header_is (header_upgrade req) "websocket"); simpl in *;
    [|split; [trivial | discriminate]].
  rewrite H. simpl. split; [trivial | discriminate].
Qed.



Lemma sets_ok_weaken (m : RoomMap) n n' :
  n <= n' ->
  Forall (fun e => Forall (fun x => x < n) (snd e)) m ->
  Forall (fun e => Forall (fun x => x < n') (snd e)) m.
Proof.
  intros Hn H. eapply Forall_impl; [|exact H]. intros e He.
  eapply Forall_impl; [|exact He]. intros x Hx. simpl in Hx. lia.
Qed.

Lemma sets_ok_leave st sock r n :
  sets_nodup (rooms st) /\
  Forall (fun e => Forall (fun x => x < n) (snd e)) (rooms st) ->
  sets_nodup (leave sock r (rooms st)) /\
  Forall (fun e => Forall (fun x => x < n) (snd e)) (leave sock r (rooms st)).
Proof.
  intros [Hd Hb]. split.
  - apply (Forall_leave (@NoDup Socket)); trivial.
    intros s. apply NoDup_Set_delete.
  - apply (Forall_leave (Forall (fun x => x < n))); trivial.
    intros s Hs. unfold Set_delete. rewrite Forall_forall in *.
    intros x Hx. apply filter_In in Hx. now apply Hs.
Qed.

Lemma sets_ok_step st ev : sets_ok st -> sets_ok (fst (step deno st ev)).
Proof.
  intros Hok.
  pose proof (length_conns_step deno st ev) as Hlen. revert Hlen.
  destruct ev as [req now date|s|s data|s|s|s]; simpl.
  - pose proof (rooms_serve deno st req now date) as R.
    destruct (serve deno st req now date) as [st' resp]. simpl in *.
    intro Hlen. destruct Hok as [Hd Hb]. unfold sets_ok. rewrite R.
    split; trivial. now apply sets_ok_weaken with (n := List.length (conns st)).
  - destruct (ReadyState_eqb _ _); simpl; trivial.
    intros _. unfold sets_ok. simpl. now rewrite length_update_nth.
  - destruct (is_open st s) eqn:Ho; simpl; trivial.
    assert (G : forall items, sets_ok (join st s items)).
    { intro items. unfold sets_ok. simpl. rewrite length_update_nth.
      pose proof (is_open_valid st s Ho) as Hv.
      destruct (sets_ok_leave st s (room_of st s) _ Hok) as [Hd Hb].
      split.
      - apply (Forall_enter (@NoDup Socket)); trivial.
        + intros t. apply NoDup_Set_add.
        + repeat constructor. simpl. tauto.
      - apply (Forall_enter (Forall (fun x => x < List.length (conns st))));
          trivial.
        + intros t Ht. rewrite Forall_forall in *. intros x Hx.
          apply In_Set_add in Hx as [->|Hx]; auto.
        + repeat constructor. exact Hv. }
    intros _.
    destruct (conns_on_message deno st s data) as [E|[items [_ E]]].
    + destruct (is_subscribe deno data) eqn:Hs.
      * unfold is_subscribe in Hs.
        destruct (JSON_parse deno data) as [d|] eqn:Hp; [|discriminate].
        destruct (subscribe_topics d) as [items|] eqn:Ht; [|discriminate].
        rewrite (on_message_subscribe deno st s data d items Hp Ht). simpl.
        apply G.
      * now rewrite on_message_plain.
    + destruct (on_message deno st s data). simpl in *. subst. apply G.
  - intros _. destruct (readyState_of st s); simpl; trivial;
      unfold sets_ok; simpl; now rewrite length_update_nth.
  - intros _. destruct (readyState_of st s); simpl; trivial;
      unfold sets_ok; simpl; rewrite length_update_nth;
      apply (sets_ok_leave st s _ _ Hok).
  - trivial.
Qed.

Lemma sets_ok_run evs : sets_ok (state_after deno evs).
Proof.
  unfold state_after. apply (run_preserves deno sets_ok).
  - intros. now apply sets_ok_step.
  - split; constructor.
Qed.

Lemma In_WeakMap_set x s keys :
  In x (WeakMap_set s keys) <-> x = s \/ In x keys.
Proof. apply (In_Set_add s x keys). Qed.

Lemma In_WeakMap_delete x s keys :
  In x (WeakMap_delete s keys) <-> In x keys /\ x <> s.
Proof. apply (In_Set_delete s x keys). Qed.

Lemma table_ok_set_ready st s0 rs :
  rs <> CLOSED -> readyState_of st s0 <> CLOSED ->
  table_ok st -> table_ok (set_ready s0 rs st).
Proof.
  intros Hrs Hold [Hd Hi]. split; trivial.
  intro s. simpl. rewrite readyState_of_set_ready, Hi.
  destruct (Nat.eqb s s0) eqn:E; [|tauto].
  apply Nat.eqb_eq in E. subst s0. unfold readyState_of in *.
  destruct (nth_error (conns st) s); tauto.
Qed.

Lemma readyState_of_on_close st sock x :
  readyState_of (on_close st sock) x = readyState_of st x.
Proof. reflexivity. Qed.

Lemma table_ok_close st s :
  readyState_of st s <> CLOSED ->
  table_ok st -> table_ok (on_close (set_ready s CLOSED st) s).
Proof.
  intros Hlive [Hd Hi]. split.
  - apply (NoDup_Set_delete s (clients st) Hd).
  - intro x. rewrite readyState_of_on_close, readyState_of_set_ready.
    simpl. rewrite In_WeakMap_delete, Hi.
    destruct (Nat.eqb x s) eqn:X.
    + apply Nat.eqb_eq in X. subst x. unfold readyState_of in Hlive.
      destruct (nth_error (conns st) s); tauto.
    + apply Nat.eqb_neq in X. tauto.
Qed.

Lemma table_ok_step st ev : table_ok st -> table_ok (fst (step deno st ev)).
Proof.
  intros Hok. destruct ev as [req now date|s|s data|s|s|s]; simpl.
  - destruct (authenticated deno req) eqn:A.
    + rewrite (serve_authenticated st req now date A). simpl.
      destruct Hok as [Hd Hi]. split; simpl.
      * apply (NoDup_Set_add (List.length (conns st)) (clients st) Hd).
      * intro s. rewrite In_WeakMap_set, Hi. unfold readyState_of. simpl.
        destruct (Nat.lt_trichotomy s (List.length (conns st))) as [L|[L|L]].
        -- rewrite nth_error_app1 by trivial. split; [|tauto].
           intros [->|H]; [lia | trivial].
        -- subst s. rewrite nth_error_app2, Nat.sub_diag by lia. simpl.
           split; [discriminate | auto].
        -- rewrite nth_error_app2 by lia.
           destruct (s - List.length (conns st)) as [|[|n]] eqn:D;
             simpl; try lia.
           ++ assert (N : nth_error (conns st) s = None)
                by (apply nth_error_None; lia).
              rewrite N. split; [intros [->|H]; [lia | tauto] | tauto].
           ++ assert (N : nth_error (conns st) s = None)
                by (apply nth_error_None; lia).
              rewrite N. split; [intros [->|H]; [lia | tauto] | tauto].
    + destruct (serve_not_authenticated st req now date A) as [E _].
      destruct (serve deno st req now date). simpl in *. now subst.
  - destruct (ReadyState_eqb (readyState_of st s) CONNECTING) eqn:E; trivial.
    apply table_ok_set_ready; trivial; try discriminate.
    now destruct (readyState_of st s).
  - destruct (is_open st s) eqn:Ho; trivial.
    assert (G : forall items, table_ok (join st s items)).
    { intro items. destruct Hok as [Hd Hi]. split; trivial.
      intro x. simpl. now rewrite readyState_of_join. }
    destruct (conns_on_message deno st s data) as [E|[items [_ E]]].
    + destruct (is_subscribe deno data) eqn:Hs.
      * unfold is_subscribe in Hs.
        destruct (JSON_parse deno data) as [d|] eqn:Hp; [|discriminate].
        destruct (subscribe_topics d) as [items|] eqn:Ht; [|discriminate].
        rewrite (on_message_subscribe deno st s data d items Hp Ht). apply G.
      * now rewrite on_message_plain.
    + destruct (on_message deno st s data). simpl in *. subst. apply G.
  - destruct (readyState_of st s) eqn:E; trivial;
      apply table_ok_set_ready; trivial; try discriminate;
      rewrite E; discriminate.
  - destruct (readyState_of st s) eqn:E; trivial;
      apply table_ok_close; trivial; rewrite E; discriminate.
  - trivial.
Qed.

End Sessions.

Section MoreFacts.

Variable deno : Platform.

Implicit Types (st : Server) (sock s : Socket) (ev : Event).

Lemma table_ok_run evs : table_ok (state_after deno evs).
Proof.
  unfold state_after. apply (run_preserves deno table_ok).
  - intros. now apply table_ok_step.
  - split; [constructor|]. intro s. unfold readyState_of. simpl.
    destruct s; simpl; tauto.
Qed.

Lemma In_keys_unique_get (m : RoomMap) k t :
  keys_unique m -> In (k, t) m -> Map_get k m = Some t.
Proof.
  induction m as [|[a u] rest IH]; simpl; [tauto|].
  intros [Ha Hu] [[= -> ->]|Hin].
  - now rewrite SameValueZero_refl.
  - destruct (SameValueZero a k) eqn:E; auto.
    rewrite (Map_get_congr a k rest E) in Ha.
    apply In_Map_get in Hin. contradiction.
Qed.

Lemma NoDup_map_pair {A B : Type} (b : B) (l : list A) :
  NoDup l -> NoDup (map (fun a => (a, b)) l).
Proof.
  induction 1 as [|x l Hx Hl IH]; simpl; constructor; trivial.
  rewrite in_map_iff. intros [y [[= ->] Hy]]. contradiction.
Qed.

Lemma NoDup_fan_out st sock data :
  sets_nodup (rooms st) -> NoDup (fan_out st sock data).
Proof.
  intro Hd. unfold fan_out. destruct (_ && _); [|constructor].
  apply NoDup_map_pair, NoDup_filter. unfold members.
  destruct (Map_get (room_of st sock) (rooms st)) as [t|] eqn:E;
    [|constructor].
  destruct (Map_get_In _ _ _ E) as [k' [Hin _]].
  unfold sets_nodup in Hd. rewrite Forall_forall in Hd.
  exact (Hd _ Hin).
Qed.

Lemma rooms_step_quiet st ev :
  membership_event deno ev = false ->
  rooms (fst (step deno st ev)) = rooms st.
Proof.
  destruct ev as [req now date|s|s data|s|s|s]; simpl; intro H;
    try discriminate; trivial.
  - pose proof (rooms_serve deno st req now date) as R.
    now destruct (serve deno st req now date).
  - now destruct (ReadyState_eqb _ _).
  - destruct (is_open st s); trivial. now rewrite on_message_plain.
  - now destruct (readyState_of st s).
Qed.

Lemma rooms_run_quiet evs st :
  (forall ev, In ev evs -> membership_event deno ev = false) ->
  rooms (fst (run deno st evs)) = rooms st.
Proof.
  revert st. induction evs as [|ev rest IH]; intros st H; simpl; trivial.
  pose proof (rooms_step_quiet st ev (H ev (or_introl eq_refl))) as Hs.
  destruct (step deno st ev) as [st1 out1]. specialize (IH st1).
  destruct (run deno st1 rest). simpl in *. rewrite IH; trivial.
  intros e He. apply H. now right.
Qed.

End MoreFacts.


(** X5.  The configured secret is never the empty string (an unset or empty
    environment variable gives the default), so a request that carries no
    protocol header, or an empty one, is never upgraded and changes
    nothing. *)
Theorem no_credential_no_upgrade (deno : Platform) (st : Server)
  (req : Request) (performance_now : Q) (date : Z) :
  header_sec_websocket_protocol req = None \/
  header_sec_websocket_protocol req = Some "" ->
  SIGNALING_PASSWORD deno <> "" /\
  fst (serve deno st req performance_now date) = st /\
  status_code (snd (serve deno st req performance_now date)) <> 101.
Proof.
  intro H. pose proof (SIGNALING_PASSWORD_not_empty deno) as Hne.
  split; trivial. apply serve_not_authenticated. unfold authenticated.
  assert (G : header_is (header_sec_websocket_protocol req)
                        (SIGNALING_PASSWORD deno) = false).
  { destruct H as [-> | ->]; unfold header_is; trivial.
    apply String.eqb_neq. congruence. }
  rewrite G. apply andb_false_r.
Qed.

Lemma no_credential_no_upgrade_witness :
  fst (serve {| env_SIGNALING_PASSWORD := Some "";
                JSON_parse := Examples.parse;
                Number_toString := fun _ _ _ => "" |}
             initial
             {| pathname := "/ws";
                header_upgrade := Some "websocket";
                header_sec_websocket_protocol := Some "" |}
             (Qmake 0 1) 0%Z) = initial.
Proof.
  exact (proj1 (proj2 (no_credential_no_upgrade
           {| env_SIGNALING_PASSWORD := Some "";
              JSON_parse := Examples.parse;
              Number_toString := fun _ _ _ => "" |}
           initial
           {| pathname := "/ws";
              header_upgrade := Some "websocket";
              header_sec_websocket_protocol := Some "" |}
           (Qmake 0 1) 0%Z (or_intror eq_refl)))).
Defined.

(** X6.  The session table ([clients]) holds exactly the upgraded sockets
    that are not closed, each once: an entry is made at the upgrade and
    removed by the close listener. *)
Theorem session_table_holds_live_sockets (deno : Platform) (evs : list Event) :
  let st := state_after deno evs in
  NoDup (clients st) /\
  forall s, In s (clients st) <-> readyState_of st s <> CLOSED.
Proof. intro st. apply table_ok_run. Qed.

(** X7.  Requests, open and error events, and messages that are not a
    subscribe never change membership: across any run of such events the
    registry and every room pointer stay as they were. *)
Theorem membership_changes_only_on_subscribe_or_close (deno : Platform)
  (st : Server) (evs : list Event) :
  (forall ev, In ev evs -> membership_event deno ev = false) ->
  rooms (fst (run deno st evs)) = rooms st /\
  forall s, s < List.length (conns st) ->
            room_of (fst (run deno st evs)) s = room_of st s.
Proof.
  intro H. split.
  - now apply rooms_run_quiet.
  - intros s Hs. apply room_of_run_stable; trivial.
    intros d Hd. exact (H _ Hd).
Qed.

Lemma membership_changes_only_on_subscribe_or_close_witness :
  let st := state_after Examples.deno Examples.two_in_A in
  rooms (fst (run Examples.deno st
                  [Fetch (Examples.get "/health") (Qmake 0 1) 0%Z;
                   Examples.handshake "/ws" "wrong";
                   SocketError 0;
                   Examples.says 1 Examples.ping;
                   SocketMessage 0 "hello"])) = rooms st.
Proof.
  apply (membership_changes_only_on_subscribe_or_close Examples.deno
           (state_after Examples.deno Examples.two_in_A)).
  intros ev [<-|[<-|[<-|[<-|[<-|[]]]]]]; reflexivity.
Defined.

(** X8.  No recipient is sent a message twice: the sends a message event
    causes are pairwise different. *)
Theorem no_duplicate_delivery (deno : Platform) (evs : list Event)
  (sender : Socket) (data : string) :
  let st := state_after deno evs in
  NoDup (snd (step deno st (SocketMessage sender data))).
Proof.
  intro st. destruct (is_open st sender) eqn:Ho.
  - pose proof (sets_ok_step deno st (SocketMessage sender data)
                  (sets_ok_run deno evs)) as [Hd _].
    rewrite step_message in * by exact Ho. simpl in *.
    rewrite snd_on_message.
    pose proof (NoDup_fan_out (fst (on_message deno st sender data))
                  sender data Hd) as Hn.
    induction Hn as [|[c d] l Hx Hl IH]; simpl; constructor; trivial.
    rewrite in_map_iff. intros [[c' d'] [[= -> ->] Hy]]. contradiction.
  - rewrite step_message_closed by exact Ho. constructor.
Qed.

(** X9.  A room with a truthy identifier is in the registry only while a
    connection that is not closed is in it and names it: every such entry has
    a member of that kind, so once every connection is closed only rooms with
    a falsy identifier are left. *)
Theorem truthy_room_has_live_member (deno : Platform) (evs : list Event) :
  let st := state_after deno evs in
  (forall k t, In (k, t) (rooms st) -> truthy k = true ->
     exists x, In x t /\ readyState_of st x <> CLOSED /\
               SameValueZero (room_of st x) k = true) /\
  ((forall x, readyState_of st x = CLOSED) ->
   forall k t, In (k, t) (rooms st) -> truthy k = false).
Proof.
  intro st.
  assert (Hok : registry_ok st) by (apply registry_ok_run, registry_ok_initial).
  destruct Hok as [Hu Hne].
  destruct (consistent_run deno evs) as [H2 _]. fold st in H2.
  assert (G : forall k t, In (k, t) (rooms st) -> truthy k = true ->
     exists x, In x t /\ readyState_of st x <> CLOSED /\
               SameValueZero (room_of st x) k = true).
  { intros k t Hin Hk.
    unfold all_nonempty in Hne. rewrite Forall_forall in Hne.
    pose proof (Hne _ Hin) as Ht. simpl in Ht.
    destruct t as [|x t']; [contradiction|]. exists x.
    assert (Hm : In x (members k (rooms st))).
    { unfold members. rewrite (In_keys_unique_get _ _ _ Hu Hin). now left. }
    destruct (H2 k x Hk Hm). repeat split; trivial. now left. }
  split; trivial.
  intros Hclosed k t Hin. destruct (truthy k) eqn:Hk; trivial.
  destruct (G k t Hin Hk) as (x & _ & Hlive & _). now elim Hlive.
Qed.

(** * Joining, switching and leaving *)

Section JoinLeaveFacts.

Implicit Types (k r : Value) (m : RoomMap) (t : SocketSet) (sock x : Socket).

Lemma Map_mutate_mutate r f g m :
  Map_mutate r g (Map_mutate r f m) = Map_mutate r (fun t => g (f t)) m.
Proof.
  induction m as [|[a t] rest IH]; simpl; trivial.
  destruct (SameValueZero a r) eqn:E; simpl; rewrite E; trivial.
  now rewrite IH.
Qed.

Lemma Map_mutate_fixed r f m t :
  Map_get r m = Some t -> f t = t -> Map_mutate r f m = m.
Proof.
  induction m as [|[a u] rest IH]; simpl; trivial.
  destruct (SameValueZero a r).
  - intros [= ->] ->. reflexivity.
  - intros H Hf. now rewrite IH.
Qed.

Lemma Map_delete_app_absent r k0 t m :
  Map_get r m = None -> SameValueZero k0 r = true ->
  Map_delete r (m ++ [(k0, t)]) = m.
Proof.
  intros H H0. induction m as [|[a u] rest IH]; simpl in *.
  - now rewrite H0.
  - destruct (SameValueZero a r); [discriminate|]. now rewrite IH.
Qed.

Lemma Set_delete_fresh x t : ~ In x t -> Set_delete x t = t.
Proof.
  unfold Set_delete. induction t as [|y t IH]; simpl; trivial.
  intro H. destruct (Nat.eqb y x) eqn:E; simpl.
  - apply Nat.eqb_eq in E. subst. tauto.
  - rewrite IH; tauto.
Qed.

Lemma Set_delete_add_fresh x t : ~ In x t -> Set_delete x (Set_add x t) = t.
Proof.
  intro H. unfold Set_add. destruct (Set_has x t) eqn:E.
  - apply Set_has_In in E. contradiction.
  - unfold Set_delete. rewrite filter_app. simpl. rewrite Nat.eqb_refl. simpl.
    rewrite app_nil_r. now apply Set_delete_fresh.
Qed.

Lemma length_Set_delete x t :
  NoDup t -> In x t -> List.length (Set_delete x t) + 1 = List.length t.
Proof.
  unfold Set_delete. induction 1 as [|y t Hy Hd IH]; simpl; [tauto|].
  intros [->|Hin].
  - rewrite Nat.eqb_refl. simpl.
    fold (Set_delete x t). rewrite Set_delete_fresh by trivial. lia.
  - destruct (Nat.eqb y x) eqn:E; simpl.
    + apply Nat.eqb_eq in E. subst. contradiction.
    + rewrite <- (IH Hin). lia.
Qed.

(** Entering a room and leaving it again gives the registry back. *)
Lemma leave_enter_fresh sock r m :
  all_nonempty m -> truthy r = true -> ~ In sock (members r m) ->
  leave sock r (enter sock r m) = m.
Proof.
  intros Hne Hr Hfresh. unfold leave, members in *.
  destruct (Map_get r m) as [t|] eqn:Hg.
  - rewrite (enter_present _ _ _ _ Hg). unfold Map_has.
    rewrite Map_get_mutate, SameValueZero_refl, Hg, Hr. simpl.
    rewrite Map_mutate_mutate.
    rewrite (Map_mutate_fixed r _ m t Hg) by now apply Set_delete_add_fresh.
    rewrite Hg. pose proof (Map_get_nonempty _ _ _ Hne Hg) as Ht.
    destruct t; [contradiction | reflexivity].
  - rewrite (enter_absent _ _ _ Hg). unfold Map_has.
    rewrite Map_get_app, Hg. simpl.
    rewrite SameValueZero_normalize, Hr. simpl.
    rewrite Map_mutate_app_absent by auto using SameValueZero_normalize.
    unfold Set_delete. simpl. rewrite Nat.eqb_refl. simpl.
    rewrite Map_get_app, Hg. simpl. rewrite SameValueZero_normalize. simpl.
    apply Map_delete_app_absent; auto using SameValueZero_normalize.
Qed.

End JoinLeaveFacts.

(** X10.  Subscribing and disconnecting is a round trip: when an open
    connection with no room subscribes to a room with a truthy identifier and
    then closes, the registry is again what it was before the subscribe, the
    room and the order of rooms and members included. *)
Theorem subscribe_then_close_restores_registry (deno : Platform)
  (evs : list Event) (sock : Socket) (data : string) (d : JSON)
  (first : JSON) (more : list JSON) :
  let st := state_after deno evs in
  is_open st sock = true ->
  truthy (room_of st sock) = false ->
  JSON_parse deno data = Some d ->
  subscribe_topics d = Some (first :: more) ->
  truthy (to_value (next_ref st) first) = true ->
  rooms (fst (run deno st [SocketMessage sock data; SocketClose sock])) =
  rooms st.
Proof.
  intros st Hopen Hnone Hparse Hsub Hr.
  assert (Hok : registry_ok st) by (apply registry_ok_run, registry_ok_initial).
  destruct Hok as [_ Hne].
  destruct (consistent_run deno evs) as [H2 _]. fold st in H2.
  set (r := to_value (next_ref st) first) in *.
  assert (Hfresh : ~ In sock (members r (rooms st))).
  { intro Hin. destruct (H2 r sock Hr Hin) as [Hsame _].
    apply truthy_congr in Hsame. congruence. }
  assert (Hv : sock < List.length (conns st)) by now apply is_open_valid.
  simpl run. rewrite Hopen.
  rewrite (on_message_subscribe deno st sock data d _ Hparse Hsub). simpl.
  rewrite readyState_of_join.
  assert (Hrs : readyState_of st sock = OPEN).
  { unfold is_open in Hopen. now destruct (readyState_of st sock). }
  rewrite Hrs. simpl.
  rewrite room_of_set_ready, room_of_join_same by trivial. simpl.
  rewrite (leave_off sock (room_of st sock)) by (now rewrite Hnone).
  fold r.
  now apply leave_enter_fresh.
Qed.

Lemma subscribe_then_close_restores_registry_witness :
  let st := state_after Examples.deno
              (Examples.connect 0 ++ Examples.connect 1 ++
               [Examples.says 0 (Examples.subscribe_to ["A"])]) in
  rooms (fst (run Examples.deno st
                  [Examples.says 1 (Examples.subscribe_to ["A"]);
                   SocketClose 1])) = rooms st.
Proof.
  apply (subscribe_then_close_restores_registry Examples.deno
           (Examples.connect 0 ++ Examples.connect 1 ++
            [Examples.says 0 (Examples.subscribe_to ["A"])])
           1 (Examples.text_of (Examples.subscribe_to ["A"]))
           (Examples.subscribe_to ["A"]) (JString "A") []);
    reflexivity.
Defined.

(** X11.  Switching rooms: when an open connection whose pointer names a
    room with a truthy identifier subscribes to a room of another name, the
    old room's member set is what it was without the sender and one shorter,
    the old room is gone from the registry exactly when the sender was its
    only member, and the sender is in the new room, which its pointer now
    names. *)
Theorem room_switch (deno : Platform) (evs : list Event) (sock : Socket)
  (data : string) (d : JSON) (first : JSON) (more : list JSON) :
  let st := state_after deno evs in
  let old := room_of st sock in
  let new := to_value (next_ref st) first in
  let st' := fst (step deno st (SocketMessage sock data)) in
  is_open st sock = true ->
  truthy old = true ->
  JSON_parse deno data = Some d ->
  subscribe_topics d = Some (first :: more) ->
  SameValueZero new old = false ->
  members old (rooms st') = Set_delete sock (members old (rooms st)) /\
  List.length (members old (rooms st')) + 1 =
    List.length (members old (rooms st)) /\
  (Map_has old (rooms st') = false <-> members old (rooms st) = [sock]) /\
  In sock (members new (rooms st')) /\
  room_of st' sock = new.
Proof.
  intros st old new st' Hopen Hold Hparse Hsub Hdiff.
  assert (Hok : registry_ok st) by (apply registry_ok_run, registry_ok_initial).
  destruct Hok as [Hu Hne].
  destruct (consistent_run deno evs) as [_ H1]. fold st in H1.
  destruct (sets_ok_run deno evs) as [Hd _]. fold st in Hd.
  assert (Hv : sock < List.length (conns st)) by now apply is_open_valid.
  assert (Hlive : readyState_of st sock <> CLOSED).
  { unfold is_open in Hopen. now destruct (readyState_of st sock). }
  pose proof (H1 sock Hlive Hold) as Hin. fold old in Hin.
  assert (Hst' : st' = join st sock (first :: more)).
  { unfold st'. rewrite step_message by exact Hopen.
    now rewrite (on_message_subscribe deno st sock data d _ Hparse Hsub). }
  assert (Hhas : Map_has old (rooms st) = true).
  { unfold Map_has, members in *. now destruct (Map_get old (rooms st)). }
  assert (Hmem : members old (rooms st') =
                 Set_delete sock (members old (rooms st))).
  { rewrite Hst'. simpl. fold new old.
    rewrite members_enter, Hdiff, members_leave by trivial.
    now rewrite Hold, Hhas, SameValueZero_refl. }
  assert (Hnd : NoDup (members old (rooms st))).
  { unfold members in *. destruct (Map_get old (rooms st)) as [t|] eqn:E;
      [|constructor].
    destruct (Map_get_In _ _ _ E) as [k' [Hk' _]].
    unfold sets_nodup in Hd. rewrite Forall_forall in Hd. exact (Hd _ Hk'). }
  assert (Hlen : List.length (members old (rooms st')) + 1 =
                 List.length (members old (rooms st)))
    by (rewrite Hmem; now apply length_Set_delete).
  assert (Hok' : registry_ok st')
    by (rewrite Hst'; apply registry_ok_join; now split).
  split; [exact Hmem | split; [exact Hlen | split; [|split]]].
  - assert (He : Map_has old (rooms st') = false <->
                 members old (rooms st') = []).
    { destruct Hok' as [_ Hne']. unfold Map_has, members.
      destruct (Map_get old (rooms st')) eqn:E; [|tauto].
      split; [discriminate|]. intros ->.
      now elim (Map_get_nonempty _ _ _ Hne' E). }
    rewrite He. split.
    + intro Hnil. rewrite Hnil in Hlen. simpl in Hlen.
      destruct (members old (rooms st)) as [|y [|z t]]; simpl in *; try lia.
      destruct Hin as [->|[]]. reflexivity.
    + intro Hone. rewrite Hmem, Hone. unfold Set_delete. simpl.
      now rewrite Nat.eqb_refl.
  - rewrite Hst'. simpl. fold new. rewrite members_enter, SameValueZero_refl.
    apply In_Set_add. auto.
  - rewrite Hst'. now apply room_of_join_same.
Qed.

Lemma room_switch_witness :
  let st := state_after Examples.deno Examples.two_in_A in
  let st' := fst (step Examples.deno st
                       (Examples.says 0 (Examples.subscribe_to ["B"]))) in
  members (VString "A") (rooms st') = [1] /\
  In 0 (members (VString "B") (rooms st')).
Proof.
  pose proof (room_switch Examples.deno Examples.two_in_A 0
                (Examples.text_of (Examples.subscribe_to ["B"]))
                (Examples.subscribe_to ["B"]) (JString "B") []
                eq_refl eq_refl eq_refl eq_refl eq_refl)
    as (Hmem & _ & _ & Hin & _).
  split; [exact Hmem | exact Hin].
Defined.

(** * The stats projection and the total *)

Section StatsShape.

Variable deno : Platform.

Implicit Types (m : RoomMap) (k : Value) (t : SocketSet).





Lemma length_concat_sum m :
  List.length (List.concat (map snd m)) = getTotalClients m.
Proof.
  rewrite getTotalClients_sum. induction m as [|[k t] rest IH]; simpl; trivial.
  rewrite length_app, IH. reflexivity.
Qed.

End StatsShape.



Section Counting.

Variable deno : Platform.

Lemma NoDup_concat_sets (f : Socket -> Value) (m : RoomMap) :
  keys_unique m -> sets_nodup m ->
  (forall k t x, In (k, t) m -> In x t -> SameValueZero (f x) k = true) ->
  NoDup (List.concat (map snd m)).
Proof.
  induction m as [|[k t] rest IH]; simpl; intros Hu Hd Hf; [constructor|].
  destruct Hu as [Hk Hu]. inversion Hd as [|? ? Ht Hrest]; subst.
  apply NoDup_app; trivial.
  - apply IH; trivial. intros k' t' x Hin Hx. apply (Hf k' t' x); auto.
  - intros x Hx Hx'. apply in_concat in Hx' as [t' [Ht' Hxt']].
    apply in_map_iff in Ht' as [[k' u] [E Hin]]. simpl in E. subst u.
    pose proof (Hf k t x (or_introl eq_refl) Hx) as S1.
    pose proof (Hf k' t' x (or_intror Hin) Hxt') as S2.
    apply In_Map_get in Hin. apply Hin.
    rewrite <- Hk. apply Map_get_congr. svz.
Qed.

Lemma In_subscribed_sockets st x :
  In x (subscribed_sockets st) <->
  readyState_of st x <> CLOSED /\ truthy (room_of st x) = true.
Proof.
  unfold subscribed_sockets. rewrite filter_In, in_seq, andb_true_iff.
  rewrite negb_true_iff. split.
  - intros [_ [Hl Ht]]. split; trivial. intro E. now rewrite E in Hl.
  - intros [Hl Ht]. pose proof (not_closed_valid st x Hl).
    repeat split; trivial; try lia.
    now destruct (readyState_of st x).
Qed.

End Counting.

(** X13.  The total client count is never less than the number of
    connections that are not closed and have a truthy room pointer, and it is
    exactly that number when every room identifier in the registry is
    truthy: each such connection is then counted once. *)
Theorem total_clients_counts_subscribed (deno : Platform) (evs : list Event) :
  let st := state_after deno evs in
  List.length (subscribed_sockets st) <= getTotalClients (rooms st) /\
  ((forall k t, In (k, t) (rooms st) -> truthy k = true) ->
   getTotalClients (rooms st) = List.length (subscribed_sockets st)).
Proof.
  intro st.
  assert (Hok : registry_ok st) by (apply registry_ok_run, registry_ok_initial).
  destruct Hok as [Hu _].
  destruct (consistent_run deno evs) as [H2 H1]. fold st in H2, H1.
  destruct (sets_ok_run deno evs) as [Hd _]. fold st in Hd.
  assert (Hsub : NoDup (subscribed_sockets st))
    by (apply NoDup_filter, seq_NoDup).
  assert (Hincl : forall x, In x (subscribed_sockets st) ->
                            In x (List.concat (map snd (rooms st)))).
  { intros x Hx. apply In_subscribed_sockets in Hx as [Hl Ht].
    specialize (H1 x Hl Ht). unfold members in H1.
    destruct (Map_get (room_of st x) (rooms st)) as [t|] eqn:E;
      [|now elim H1].
    destruct (Map_get_In _ _ _ E) as [k' [Hin _]].
    apply in_concat. exists t. split; trivial.
    apply in_map_iff. exists (k', t). auto. }
  rewrite <- length_concat_sum. split.
  - now apply NoDup_incl_length.
  - intro Htruthy.
    assert (Hall : forall k t x, In (k, t) (rooms st) -> In x t ->
              SameValueZero (room_of st x) k = true /\
              readyState_of st x <> CLOSED).
    { intros k t x Hin Hx. apply H2; [now apply (Htruthy k t)|].
      unfold members. now rewrite (In_keys_unique_get _ _ _ Hu Hin). }
    apply Permutation.Permutation_length, Permutation.NoDup_Permutation;
      trivial.
    + apply (NoDup_concat_sets (room_of st)); trivial.
      intros k t x Hin Hx. now destruct (Hall k t x Hin Hx).
    + intro x. split; [|apply Hincl].
      intro Hx. apply in_concat in Hx as [t [Ht Hxt]].
      apply in_map_iff in Ht as [[k u] [E Hin]]. simpl in E. subst u.
      destruct (Hall k t x Hin Hxt) as [Hsame Hl].
      apply In_subscribed_sockets. split; trivial.
      rewrite (truthy_congr _ _ Hsame). now apply (Htruthy k t).
Qed.

(** * What the authentication logs give away *)

(** X14.  Every handshake that is upgraded has been logged with the secret
    in clear: the "Authentication check" call is made before the comparison
    decides anything, and its field [providedProtocol] is the protocol header
    as received, which is the secret when the handshake is accepted. *)
Theorem accepted_handshake_logs_the_secret (deno : Platform) (st : Server)
  (req : Request) (h : LoggedHeaders) (performance_now : Q) (date : Z) :
  status_code (snd (serve deno st req performance_now date)) = 101 ->
  In (log_authentication_check deno req) (serve_log deno req h) /\
  log_level (log_authentication_check deno req) = "DEBUG" /\
  In ("providedProtocol", LString (SIGNALING_PASSWORD deno))
     (log_data (log_authentication_check deno req)).
Proof.
  intro H.
  destruct (authenticated deno req) eqn:A.
  - unfold authenticated in A.
    apply andb_true_iff in A as [A Hp]. apply andb_true_iff in A as [Hh Hu].
    apply negb_true_iff in Hh.
    unfold serve_log. rewrite Hh, Hu. simpl.
    split; [auto | split; [reflexivity|]]. left.
    unfold header_is in Hp.
    destruct (header_sec_websocket_protocol req) as [v|]; [|discriminate].
    apply String.eqb_eq in Hp. subst v. unfold or_else.
    pose proof (SIGNALING_PASSWORD_not_empty deno) as Hne.
    apply String.eqb_neq in Hne. now rewrite Hne.
  - destruct (serve_not_authenticated deno st req performance_now date A)
      as [_ F]. contradiction.
Qed.

Lemma accepted_handshake_logs_the_secret_witness :
  In ("providedProtocol", LString "change-me-in-production")
     (log_data
        (log_authentication_check Examples.deno
           {| pathname := "/ws";
              header_upgrade := Some "websocket";
              header_sec_websocket_protocol := Some Examples.password |})).
Proof.
  exact (proj2 (proj2
    (accepted_handshake_logs_the_secret Examples.deno initial
       {| pathname := "/ws";
          header_upgrade := Some "websocket";
          header_sec_websocket_protocol := Some Examples.password |}
       {| url := "http://localhost:8000/ws";
          header_connection := Some "Upgrade";
          header_origin := None;
          header_user_agent := None;
          header_x_forwarded_for := None |}
       (Qmake 0 1) 0%Z eq_refl))).
Defined.

(** X15.  The masked secret of the "Authentication check" log call (first
    three characters, three stars, last three characters), together with the
    length logged beside it, determines a secret of at most six characters;
    a secret of at most three characters is printed whole, twice. *)
Theorem mask_reveals_short_secret (pw pw' : string) :
  String.length pw <= 6 ->
  String.length pw' = String.length pw ->
  mask_ends pw = mask_ends pw' ->
  pw = pw' /\
  (String.length pw <= 3 -> mask_ends pw = (pw ++ "***" ++ pw)%string).
Proof.
  intros Hlen Heq H.
  destruct pw as [|a1 [|a2 [|a3 [|a4 [|a5 [|a6 [|a7 r]]]]]]];
    simpl in Hlen; try lia;
    destruct pw' as [|b1 [|b2 [|b3 [|b4 [|b5 [|b6 [|b7 r']]]]]]];
    simpl in Heq; try discriminate Heq;
    cbn in H; inversion H; subst;
    (split; [reflexivity | cbn; intro; try reflexivity; lia]).
Qed.

Lemma mask_reveals_short_secret_witness :
  mask_ends "abc" = "abc***abc" /\ mask_ends "abcde" = "abc***cde".
Proof.
  split.
  - exact (proj2 (mask_reveals_short_secret "abc" "abc"
                    ltac:(simpl; lia) eq_refl eq_refl) ltac:(simpl; lia)).
  - reflexivity.
Defined.

(** * Subscribing again, and the handler's answers *)

(** X16.  Subscribing again to the room it is in keeps a connection in that
    room: with a truthy identifier, the member set afterwards is the one
    before with the sender moved to the end (the room is deleted and made
    anew when the sender was alone), and the pointer names the room as
    before. *)
Theorem resubscribe_keeps_room (deno : Platform) (evs : list Event)
  (sock : Socket) (data : string) (d : JSON) (first : JSON)
  (more : list JSON) :
  let st := state_after deno evs in
  let old := room_of st sock in
  let new := to_value (next_ref st) first in
  let st' := fst (step deno st (SocketMessage sock data)) in
  is_open st sock = true ->
  truthy old = true ->
  JSON_parse deno data = Some d ->
  subscribe_topics d = Some (first :: more) ->
  SameValueZero new old = true ->
  members old (rooms st') = Set_delete sock (members old (rooms st)) ++ [sock] /\
  SameValueZero (room_of st' sock) old = true /\
  (forall x, In x (members old (rooms st')) <-> In x (members old (rooms st))).
Proof.
  intros st old new st' Hopen Hold Hparse Hsub Hsame.
  assert (Hok : registry_ok st) by (apply registry_ok_run, registry_ok_initial).
  destruct Hok as [Hu Hne].
  destruct (consistent_run deno evs) as [_ H1]. fold st in H1.
  assert (Hv : sock < List.length (conns st)) by now apply is_open_valid.
  assert (Hlive : readyState_of st sock <> CLOSED).
  { unfold is_open in Hopen. now destruct (readyState_of st sock). }
  pose proof (H1 sock Hlive Hold) as Hin. fold old in Hin.
  assert (Hst' : st' = join st sock (first :: more)).
  { unfold st'. rewrite step_message by exact Hopen.
    now rewrite (on_message_subscribe deno st sock data d _ Hparse Hsub). }
  assert (Hhas : Map_has old (rooms st) = true).
  { unfold Map_has, members in *. now destruct (Map_get old (rooms st)). }
  assert (Hmem : members old (rooms st') =
                 Set_delete sock (members old (rooms st)) ++ [sock]).
  { rewrite Hst'. simpl. fold new old.
    rewrite members_enter, Hsame, members_leave by trivial.
    rewrite Hold, Hhas, SameValueZero_refl. simpl.
    unfold Set_add.
    destruct (Set_has sock (Set_delete sock (members old (rooms st)))) eqn:E;
      trivial.
    apply Set_has_In, In_Set_delete in E. tauto. }
  split; [exact Hmem | split].
  - rewrite Hst', room_of_join_same by trivial. exact Hsame.
  - intro x. rewrite Hmem, in_app_iff, In_Set_delete. simpl.
    destruct (Nat.eq_dec x sock) as [->|Hne']; intuition congruence.
Qed.

Lemma resubscribe_keeps_room_witness :
  let st := state_after Examples.deno Examples.two_in_A in
  members (VString "A")
          (rooms (fst (step Examples.deno st
                            (Examples.says 0 (Examples.subscribe_to ["A"])))))
  = [1; 0].
Proof.
  exact (proj1 (resubscribe_keeps_room Examples.deno Examples.two_in_A 0
                  (Examples.text_of (Examples.subscribe_to ["A"]))
                  (Examples.subscribe_to ["A"]) (JString "A") []
                  eq_refl eq_refl eq_refl eq_refl eq_refl)).
Defined.

